(** * DushyRedisClient: the connection engine of dushy_redis_lib.py

    A shallow embedding of the client class of [dushy_redis_lib.py]: the
    background reader ([_read_responses]), the command path
    ([_send_command] and the typed builders on top of it), the
    subscription registry and the connection life cycle, together with
    the Python built-ins these methods call.

    Python [str] values are lists of Unicode code points, [bytes] values
    are lists of [Byte.byte].  The two threads of a connection (the
    caller and the reader) are modelled by explicit state passing over
    one [client] record; what the reader thread receives while a caller
    is inside [_send_command] is an explicit argument of the call. *)

From Stdlib Require Import NArith ZArith Lia.
From Stdlib Require Import Strings.String Strings.Ascii Strings.Byte.
From Stdlib Require Import Numbers.DecimalString.
From Stdlib Require Numbers.DecimalPos Numbers.DecimalFacts.
From stdpp Require Import base option list gmap.

Local Open Scope N_scope.
Local Set Warnings "-register-all".

(* ================================================================== *)
(** ** Python built-ins used by the client *)
(* ================================================================== *)

Module Py.

(** A [str] is a sequence of code points, a [bytes] a sequence of octets. *)
Definition char := N.
Definition str := list char.
Definition bytes := list byte.

(** String literals of the source, written as Rocq strings. *)
Definition lit (s : string) : str :=
  map N_of_ascii (list_ascii_of_string s).

Definition NL : char := 10.
Definition SP : char := 32.

(** Exceptions, all of them subclasses of [Exception]. *)
Inductive errno := EBADF | EPIPE | ENOTCONN | EISCONN | ECONNREFUSED | ECONNRESET.

Inductive exn :=
| UnicodeDecodeError
| UnicodeEncodeError
| OSError (e : errno)
| ValueError
| JSONDecodeError
| KeyError
| TypeError
| UserError (tag : nat).   (* raised by the body of a subscriber callback *)

(** Outcome of a call made by a thread: a value, an exception, or the
    thread stays suspended (a blocking [queue.get()] on an empty queue). *)
Inductive result (A : Type) :=
| Ok (a : A)
| Raise (e : exn)
| Block.
Arguments Ok {A} a.
Arguments Raise {A} e.
Arguments Block {A}.

Definition bind {A B} (r : result A) (k : A -> result B) : result B :=
  match r with
  | Ok a => k a
  | Raise e => Raise e
  | Block => Block
  end.

(** *** str methods *)

Definition str_eqb (a b : str) : bool := bool_decide (a = b).

(** [sep in s] together with [s.split(sep, 1)]: the text before the first
    [sep] and the text after it; [None] when [sep] does not occur. *)
Fixpoint partition (sep : char) (s : str) : option (str * str) :=
  match s with
  | [] => None
  | c :: t =>
      if N.eqb c sep then Some ([], t)
      else match partition sep t with
           | Some (h, r) => Some (c :: h, r)
           | None => None
           end
  end.

(** [s.split(sep, maxsplit)] for a one-character separator. *)
Fixpoint split (sep : char) (maxsplit : nat) (s : str) : list str :=
  match maxsplit with
  | O => [s]
  | S k =>
      match partition sep s with
      | None => [s]
      | Some (h, r) => h :: split sep k r
      end
  end.

(** [s.startswith(p)] *)
Fixpoint startswith (s p : str) {struct p} : bool :=
  match p with
  | [] => true
  | a :: p' =>
      match s with
      | [] => false
      | b :: s' => N.eqb a b && startswith s' p'
      end
  end.

(** [c.isspace()]: the white space of [str.strip()] without argument. *)
Definition isspace (c : char) : bool :=
  ((9 <=? c) && (c <=? 13)) || ((28 <=? c) && (c <=? 32))
  || (c =? 133) || (c =? 160) || (c =? 5760)
  || ((8192 <=? c) && (c <=? 8202))
  || (c =? 8232) || (c =? 8233) || (c =? 8239) || (c =? 8287) || (c =? 12288).

Fixpoint lstrip (s : str) : str :=
  match s with
  | [] => []
  | c :: t => if isspace c then lstrip t else s
  end.

Definition rstrip (s : str) : str := rev (lstrip (rev s)).

Definition strip (s : str) : str := rstrip (lstrip s).

(** *** UTF-8 *)

Definition is_cont (b : N) : bool := (128 <=? b) && (b <? 192).

Definition surrogate (c : N) : bool := (55296 <=? c) && (c <=? 57343).

(** [bs.decode('utf-8')] with the default strict error handler: [None]
    stands for UnicodeDecodeError (invalid start byte, truncated or
    overlong sequence, surrogate, code point above U+10FFFF). *)
Fixpoint utf8_decode (bs : bytes) : option str :=
  match bs with
  | [] => Some []
  | b0 :: t0 =>
      let n0 := Byte.to_N b0 in
      if n0 <? 128 then cons n0 <$> utf8_decode t0
      else if n0 <? 194 then None
      else if n0 <? 224 then
        match t0 with
        | b1 :: t1 =>
            let n1 := Byte.to_N b1 in
            if is_cont n1
            then cons ((n0 - 192) * 64 + (n1 - 128)) <$> utf8_decode t1
            else None
        | _ => None
        end
      else if n0 <? 240 then
        match t0 with
        | b1 :: b2 :: t2 =>
            let n1 := Byte.to_N b1 in
            let n2 := Byte.to_N b2 in
            let c := (n0 - 224) * 4096 + (n1 - 128) * 64 + (n2 - 128) in
            if is_cont n1 && is_cont n2 && (2048 <=? c) && negb (surrogate c)
            then cons c <$> utf8_decode t2
            else None
        | _ => None
        end
      else if n0 <? 245 then
        match t0 with
        | b1 :: b2 :: b3 :: t3 =>
            let n1 := Byte.to_N b1 in
            let n2 := Byte.to_N b2 in
            let n3 := Byte.to_N b3 in
            let c := (n0 - 240) * 262144 + (n1 - 128) * 4096
                     + (n2 - 128) * 64 + (n3 - 128) in
            if is_cont n1 && is_cont n2 && is_cont n3
               && (65536 <=? c) && (c <=? 1114111)
            then cons c <$> utf8_decode t3
            else None
        | _ => None
        end
      else None
  end.

Definition byte_of (n : N) : byte := default x00 (Byte.of_N n).

(** The octets of one code point; [None] for a surrogate, which the
    codec refuses (UnicodeEncodeError). *)
Definition utf8_encode_char (c : char) : option bytes :=
  if c <? 128 then Some [byte_of c]
  else if c <? 2048 then
    Some [byte_of (192 + c / 64); byte_of (128 + c mod 64)]
  else if c <? 65536 then
    if surrogate c then None
    else Some [byte_of (224 + c / 4096); byte_of (128 + (c / 64) mod 64);
               byte_of (128 + c mod 64)]
  else if c <=? 1114111 then
    Some [byte_of (240 + c / 262144); byte_of (128 + (c / 4096) mod 64);
          byte_of (128 + (c / 64) mod 64); byte_of (128 + c mod 64)]
  else None.

(** [s.encode('utf-8')] *)
Fixpoint utf8_encode (s : str) : option bytes :=
  match s with
  | [] => Some []
  | c :: t =>
      match utf8_encode_char c, utf8_encode t with
      | Some b, Some bs => Some (b ++ bs)
      | _, _ => None
      end
  end.

(** *** Values decoded by [json.loads] *)

(** A float is carried by its value [m * 2^e], or is one of the three
    non-finite literals the decoder accepts. *)
Inductive pyfloat :=
| FFinite (m e : Z)
| FInf (negative : bool)
| FNan.

Inductive json :=
| JNull
| JBool (b : bool)
| JInt (n : Z)
| JFloat (f : pyfloat)
| JStr (s : str)
| JArr (xs : list json)
| JObj (kv : list (str * json)).   (* a dict, keys pairwise distinct *)

(** What a subscriber callback receives: the decoded [Content] as it is,
    or the [bytes] object built from it. *)
Inductive pyval :=
| PJson (j : json)
| PBytes (b : bytes).

Fixpoint dict_get (kv : list (str * json)) (k : str) : option json :=
  match kv with
  | [] => None
  | (k', v) :: rest => if str_eqb k' k then Some v else dict_get rest k
  end.

(** [obj[key]] for a string key. *)
Definition subscript (obj : json) (key : str) : result json :=
  match obj with
  | JObj kv =>
      match dict_get kv key with
      | Some v => Ok v
      | None => Raise KeyError
      end
  | _ => Raise TypeError
  end.

Definition float_eq_int (f : pyfloat) (n : Z) : bool :=
  match f with
  | FFinite m e =>
      if (0 <=? e)%Z then (m * 2 ^ e =? n)%Z else (m =? n * 2 ^ (- e))%Z
  | _ => false
  end.

(** [obj == n] for an int literal [n] other than 0 and 1. *)
Definition eq_int (obj : json) (n : Z) : bool :=
  match obj with
  | JInt k => (k =? n)%Z
  | JFloat f => float_eq_int f n
  | _ => false
  end.

(** One element of the iterable given to [bytes(...)]. *)
Definition byte_item (x : json) : result byte :=
  match x with
  | JInt n =>
      if ((0 <=? n) && (n <? 256))%Z then Ok (byte_of (Z.to_N n))
      else Raise ValueError
  | JBool b => Ok (if b then x01 else x00)
  | _ => Raise TypeError
  end.

Fixpoint byte_items (xs : list json) : result bytes :=
  match xs with
  | [] => Ok []
  | x :: rest =>
      bind (byte_item x) (fun b =>
      bind (byte_items rest) (fun bs => Ok (b :: bs)))
  end.

(** [bytes(content)].  An int gives that many zero octets (the memory
    limit of the interpreter is not modelled), a list its octets, a dict
    is iterated over its keys, which are strings. *)
Definition to_bytes (content : pyval) : result pyval :=
  match content with
  | PBytes b => Ok (PBytes b)
  | PJson (JInt n) =>
      if (n <? 0)%Z then Raise ValueError
      else Ok (PBytes (replicate (Z.to_nat n) x00))
  | PJson (JBool b) => Ok (PBytes (if b then [x00] else []))
  | PJson (JArr xs) => bind (byte_items xs) (fun bs => Ok (PBytes bs))
  | PJson (JObj []) => Ok (PBytes [])
  | PJson _ => Raise TypeError
  end.

(** *** Text of a value inside an f-string *)

Inductive pyobj :=
| OStr (s : str)
| OInt (n : Z)
| OBool (b : bool)
| ONone
| OOther (rendering : str).   (* any other object, by the text str() gives *)

Definition isinstance_str (v : pyobj) : bool :=
  match v with OStr _ => true | _ => false end.

Definition str_of_int (n : Z) : str :=
  lit (NilEmpty.string_of_int (Z.to_int n)).

(** [f"{v}"] *)
Definition format (v : pyobj) : str :=
  match v with
  | OStr s => s
  | OInt n => str_of_int n
  | OBool b => if b then lit "True" else lit "False"
  | ONone => lit "None"
  | OOther r => r
  end.

(** *** More str methods and codecs, for the typed commands *)

(** [sep.join(parts)] *)
Fixpoint join (sep : str) (parts : list str) : str :=
  match parts with
  | [] => []
  | p :: rest =>
      match rest with
      | [] => p
      | _ :: _ => p ++ sep ++ join sep rest
      end
  end.

(** [s.split()] without argument: the maximal runs of characters that
    are not white space.  [word] is the run being read, last character
    first. *)
Fixpoint split_runs (word : str) (s : str) : list str :=
  match s with
  | [] =>
      match word with
      | [] => []
      | _ :: _ => [rev word]
      end
  | c :: t =>
      if isspace c
      then match word with
           | [] => split_runs [] t
           | _ :: _ => rev word :: split_runs [] t
           end
      else split_runs (c :: word) t
  end.

Definition split_whitespace (s : str) : list str := split_runs [] s.

(** The letter of a six-bit value in the alphabet of base64. *)
Definition b64_letter (n : N) : byte :=
  if n <? 26 then byte_of (65 + n)
  else if n <? 52 then byte_of (71 + n)
  else if n <? 62 then byte_of (n - 4)
  else if n =? 62 then x2b
  else x2f.

(** [base64.b64encode(data)] *)
Fixpoint b64encode (data : bytes) : bytes :=
  match data with
  | [] => []
  | a :: t1 =>
      match t1 with
      | [] =>
          let n := Byte.to_N a in
          [b64_letter (n / 4); b64_letter ((n mod 4) * 16); x3d; x3d]
      | b :: t2 =>
          match t2 with
          | [] =>
              let n := Byte.to_N a * 256 + Byte.to_N b in
              [b64_letter (n / 1024); b64_letter ((n / 16) mod 64);
               b64_letter ((n mod 16) * 4); x3d]
          | c :: rest =>
              let n := Byte.to_N a * 65536 + Byte.to_N b * 256
                       + Byte.to_N c in
              b64_letter (n / 262144) :: b64_letter ((n / 4096) mod 64)
              :: b64_letter ((n / 64) mod 64) :: b64_letter (n mod 64)
              :: b64encode rest
          end
      end
  end.

End Py.

(* ================================================================== *)
(** ** The client *)
(* ================================================================== *)

Module DushyRedisClient.
Import Py.

(** A subscriber callback is known by its handle. *)
Definition callback := nat.

(** The socket of the connection, as far as the client observes it. *)
Inductive sock_state := Fresh | Connected | Closed.

(** The reader thread: not started, inside the loop of
    [_read_responses], where it waits in [recv] with its local
    [buffer], or returned. *)
Inductive thread :=
| NotStarted
| Reading (buffer : str)
| Finished.

(** The two [print] statements of the reader. *)
Inductive printed :=
| ErrorProcessingMessage (e : exn)
| ReadError (e : exn).

(** What one [socket.recv(4096)] of the reader gives: octets (none at
    end of stream) or an OSError. *)
Inductive recv_outcome :=
| Recv (data : bytes)
| RecvError (e : errno).

Record client := Client {
  sock : sock_state;
  sent : list bytes;                    (* octets given to socket.send, oldest first *)
  response_queue : list str;            (* queue.Queue(): put at the back, get at the front *)
  subscriptions : gmap str (list callback);
  running : bool;
  _read_thread : thread;
  stdout : list printed;
  calls : list (callback * pyval)       (* callback invocations, oldest first *)
}.

Definition set_sock v c :=
  Client v (sent c) (response_queue c) (subscriptions c) (running c)
         (_read_thread c) (stdout c) (calls c).
Definition set_sent v c :=
  Client (sock c) v (response_queue c) (subscriptions c) (running c)
         (_read_thread c) (stdout c) (calls c).
Definition set_response_queue v c :=
  Client (sock c) (sent c) v (subscriptions c) (running c)
         (_read_thread c) (stdout c) (calls c).
Definition set_subscriptions v c :=
  Client (sock c) (sent c) (response_queue c) v (running c)
         (_read_thread c) (stdout c) (calls c).
Definition set_running v c :=
  Client (sock c) (sent c) (response_queue c) (subscriptions c) v
         (_read_thread c) (stdout c) (calls c).
Definition set_read_thread v c :=
  Client (sock c) (sent c) (response_queue c) (subscriptions c) (running c)
         v (stdout c) (calls c).
Definition set_stdout v c :=
  Client (sock c) (sent c) (response_queue c) (subscriptions c) (running c)
         (_read_thread c) v (calls c).
Definition set_calls v c :=
  Client (sock c) (sent c) (response_queue c) (subscriptions c) (running c)
         (_read_thread c) (stdout c) v.

(** [__init__] *)
Definition __init__ : client :=
  Client Fresh [] [] ∅ false NotStarted [] [].

(** *** Methods as state transformers with a result *)

Definition M (A : Type) : Type := client -> client * result A.

Definition ret {A} (a : A) : M A := fun c => (c, Ok a).
Definition raise {A} (e : exn) : M A := fun c => (c, Raise e).
Definition lift {A} (r : result A) : M A := fun c => (c, r).
Definition mbind {A B} (m : M A) (k : A -> M B) : M B :=
  fun c =>
    match m c with
    | (c', Ok a) => k a c'
    | (c', Raise e) => (c', Raise e)
    | (c', Block) => (c', Block)
    end.

(** [try: m except Exception as e: h e] *)
Definition try_except {A} (m : M A) (h : exn -> M A) : M A :=
  fun c =>
    match m c with
    | (c', Raise e) => h e c'
    | r => r
    end.

Notation "x <- m ;; k" := (mbind m (fun x => k))
  (at level 100, m at next level, right associativity).
Notation "m ;;; k" := (mbind m (fun _ => k))
  (at level 100, right associativity).

Definition print (p : printed) : M unit :=
  fun c => (set_stdout (stdout c ++ [p]) c, Ok tt).

(** [self.response_queue.put(x)]: the queue is unbounded, [put] returns
    at once. *)
Definition queue_put (x : str) : M unit :=
  fun c => (set_response_queue (response_queue c ++ [x]) c, Ok tt).

(** [self.response_queue.get()]: the oldest item, or the caller stays
    suspended while the queue is empty. *)
Definition queue_get : M str :=
  fun c =>
    match response_queue c with
    | [] => (c, Block)
    | x :: q => (set_response_queue q c, Ok x)
    end.

Section Client.

(** [json.loads]; [None] stands for JSONDecodeError. *)
Variable json_loads : str -> option json.

(** The body of a callback on a value: [Some e] when it raises [e].
    A callback is a function of the caller; the record [calls] keeps
    the value it is invoked with, which it does not modify. *)
Variable invoke : callback -> pyval -> option exn.

(** The error number of [send] on a socket that was never connected
    (EPIPE on Linux, ENOTCONN on BSD). *)
Variable errno_unconnected : errno.

(** *** The reader: [_read_responses] *)

(** The value handed to the callbacks at one turn of the [for] loop:
    [if msg_type == 2: content = bytes(content)]. *)
Definition loop_content (msg_type : json) (content : pyval) : result pyval :=
  if eq_int msg_type 2 then to_bytes content else Ok content.

Definition call (cb : callback) (content : pyval) : M unit :=
  fun c =>
    let c' := set_calls (calls c ++ [(cb, content)]) c in
    match invoke cb content with
    | Some e => (c', Raise e)
    | None => (c', Ok tt)
    end.

(** [for callback in self.subscriptions[channel]: ...] *)
Fixpoint for_callbacks (cbs : list callback) (msg_type : json)
         (content : pyval) : M unit :=
  match cbs with
  | [] => ret tt
  | cb :: rest =>
      content' <- lift (loop_content msg_type content) ;;
      call cb content' ;;;
      for_callbacks rest msg_type content'
  end.

(** The body of the inner [try]. *)
Definition dispatch (line : str) : M unit :=
  match split SP 2 line with
  | [_; channel; json_str] =>
      match json_loads json_str with
      | None => raise JSONDecodeError
      | Some message =>
          fun c =>
            match subscriptions c !! channel with
            | Some cbs =>
                (content <- lift (subscript message (lit "Content")) ;;
                 msg_type <- lift (subscript message (lit "Type")) ;;
                 for_callbacks cbs msg_type (PJson content)) c
            | None => (c, Ok tt)
            end
      end
  | _ => raise ValueError   (* unpacking fewer than three fields *)
  end.

Definition handle_message (line : str) : M unit :=
  try_except (dispatch line)
             (fun e => print (ErrorProcessingMessage e)).

(** The body of [while '\n' in buffer] for one line. *)
Definition process_line (line : str) : M unit :=
  if bool_decide (line = []) then ret tt
  else if startswith line (lit "Message") then handle_message line
  else queue_put (strip line).

(** [while '\n' in buffer: line, buffer = buffer.split('\n', 1); ...].
    Every turn removes a newline from the buffer, so [length buffer]
    turns are enough. *)
Fixpoint while_newline (fuel : nat) (buffer : str) : M str :=
  match fuel with
  | O => ret buffer
  | S fuel' =>
      match partition NL buffer with
      | None => ret buffer
      | Some (line, buffer') =>
          process_line line ;;; while_newline fuel' buffer'
      end
  end.

Definition drain (buffer : str) : M str :=
  while_newline (length buffer) buffer.

(** One turn of [while self.running] after the test, given what [recv]
    returns: the new buffer, or [None] when the loop is left. *)
Definition reader_turn (r : recv_outcome) (buffer : str) : M (option str) :=
  try_except
    (match r with
     | RecvError e => raise (OSError e)
     | Recv octets =>
         match utf8_decode octets with
         | None => raise UnicodeDecodeError
         | Some [] => ret None
         | Some data =>
             buffer' <- drain (buffer ++ data) ;; ret (Some buffer')
         end
     end)
    (fun e => print (ReadError e) ;;; ret None).

(** One turn of the loop as the thread takes it.  A thread in the state
    [Reading buffer] has passed the test of [self.running] and is inside
    [recv], which [close] does not interrupt: the call returns with the
    outcome [r], the chunk is handled whatever [running] has become in
    the meantime, and only then is [self.running] tested again, for the
    next turn.  The test does not block, so it is taken with the turn
    that it follows; the first one is taken when the thread starts,
    [running] having been set just before.  A thread that is not in the
    loop does nothing. *)
Definition reader_step (c : client) (r : recv_outcome) : client :=
  match _read_thread c with
  | Reading buffer =>
      match reader_turn r buffer c with
      | (c', Ok (Some buffer')) =>
          if running c' then set_read_thread (Reading buffer') c'
          else set_read_thread Finished c'
      | (c', _) => set_read_thread Finished c'
      end
  | _ => c
  end.

(** The reader thread over the successive outcomes of [recv]. *)
Definition _read_responses (rs : list recv_outcome) (c : client) : client :=
  fold_left reader_step rs c.

(** *** Life cycle *)

(** [_connect]; [reachable] tells whether the server accepts. *)
Definition _connect (reachable : bool) : M unit :=
  fun c =>
    match sock c with
    | Closed => (c, Raise (OSError EBADF))
    | Connected => (c, Raise (OSError EISCONN))
    | Fresh =>
        if reachable
        then (set_read_thread (Reading [])
                (set_running true (set_sock Connected c)), Ok tt)
        else (c, Raise (OSError ECONNREFUSED))
    end.

(** [connect]: a new instance, connected. *)
Definition connect (reachable : bool) : client * result unit :=
  _connect reachable __init__.

(** [close]; closing a closed socket object does nothing. *)
Definition close : M unit :=
  fun c => (set_sock Closed (set_running false c), Ok tt).

(** *** The command path *)

Definition encode (s : str) : M bytes :=
  match utf8_encode s with
  | Some b => ret b
  | None => raise UnicodeEncodeError
  end.

(** [self.socket.send(data)].  On a connected socket all the octets
    are taken (the client does not look at the count that [send]
    returns) and the peer has not reset the connection. *)
Definition socket_send (data : bytes) : M unit :=
  fun c =>
    match sock c with
    | Connected => (set_sent (sent c ++ [data]) c, Ok tt)
    | Fresh => (c, Raise (OSError errno_unconnected))
    | Closed => (c, Raise (OSError EBADF))
    end.

(** [_send_command].  [arrivals] is what the reader thread receives
    between the moment the command is sent and the moment the caller
    takes its response from the queue. *)
Definition _send_command (command : str) (arrivals : list recv_outcome)
  : M str :=
  data <- encode (command ++ [NL]) ;;
  socket_send data ;;;
  (fun c => (_read_responses arrivals c, Ok tt)) ;;;
  queue_get.

(** The double quote of [f'"{value}"']. *)
Definition dquote : str := [34].

(** [set] *)
Definition set (key : str) (value : pyobj) (arrivals : list recv_outcome)
  : M bool :=
  let value' :=
    if isinstance_str value
    then OStr (dquote ++ format value ++ dquote)
    else value in
  response <- _send_command
                (lit "SET " ++ key ++ [SP] ++ format value') arrivals ;;
  ret (str_eqb response (lit "OK")).

(** [get] *)
Definition get (key : str) (arrivals : list recv_outcome)
  : M (option str) :=
  response <- _send_command (lit "GET " ++ key) arrivals ;;
  ret (if str_eqb response (lit "(nil)") then None else Some response).

(** [subscribe] *)
Definition subscribe (channel : str) (cb : callback)
           (arrivals : list recv_outcome) : M bool :=
  (fun c =>
     let subs := subscriptions c in
     let subs1 := match subs !! channel with
                  | None => <[channel := []]> subs
                  | Some _ => subs
                  end in
     (set_subscriptions (alter (fun l => l ++ [cb]) channel subs1) c,
      Ok tt)) ;;;
  response <- _send_command (lit "SUBSCRIBE " ++ channel) arrivals ;;
  ret (str_eqb response (lit "OK")).

(** *** The other typed commands *)

(** [int(s)] of a str; [None] stands for ValueError. *)
Variable py_int : str -> option Z.

(** [json.dumps] of a value made of dicts, lists, strings, numbers,
    booleans and None. *)
Variable json_dumps : json -> str.

Definition to_int (s : str) : M Z :=
  match py_int s with
  | Some n => ret n
  | None => raise ValueError
  end.

Definition decode (b : bytes) : M str :=
  match utf8_decode b with
  | Some s => ret s
  | None => raise UnicodeDecodeError
  end.

(** [' '.join(map(str, values))] *)
Definition joined (values : list pyobj) : str :=
  join [SP] (map format values).

(** [lpush] *)
Definition lpush (key : str) (values : list pyobj)
           (arrivals : list recv_outcome) : M Z :=
  response <- _send_command
                (lit "LPUSH " ++ key ++ [SP] ++ joined values) arrivals ;;
  to_int response.

(** [rpush] *)
Definition rpush (key : str) (values : list pyobj)
           (arrivals : list recv_outcome) : M Z :=
  response <- _send_command
                (lit "RPUSH " ++ key ++ [SP] ++ joined values) arrivals ;;
  to_int response.

(** [lpop] *)
Definition lpop (key : str) (arrivals : list recv_outcome)
  : M (option str) :=
  response <- _send_command (lit "LPOP " ++ key) arrivals ;;
  ret (if str_eqb response (lit "(nil)") then None else Some response).

(** [rpop] *)
Definition rpop (key : str) (arrivals : list recv_outcome)
  : M (option str) :=
  response <- _send_command (lit "RPOP " ++ key) arrivals ;;
  ret (if str_eqb response (lit "(nil)") then None else Some response).

(** [sadd] *)
Definition sadd (key : str) (members : list pyobj)
           (arrivals : list recv_outcome) : M Z :=
  response <- _send_command
                (lit "SADD " ++ key ++ [SP] ++ joined members) arrivals ;;
  to_int response.

(** [smembers] *)
Definition smembers (key : str) (arrivals : list recv_outcome)
  : M (option (list str)) :=
  response <- _send_command (lit "SMEMBERS " ++ key) arrivals ;;
  ret (if str_eqb response (lit "(nil)") then None
       else Some (split_whitespace response)).

(** [hset] *)
Definition hset (key field : str) (value : pyobj)
           (arrivals : list recv_outcome) : M bool :=
  response <- _send_command
                (lit "HSET " ++ key ++ [SP] ++ field ++ [SP] ++ format value)
                arrivals ;;
  ret (str_eqb response (lit "OK")).

(** [hget] *)
Definition hget (key field : str) (arrivals : list recv_outcome)
  : M (option str) :=
  response <- _send_command (lit "HGET " ++ key ++ [SP] ++ field) arrivals ;;
  ret (if str_eqb response (lit "(nil)") then None else Some response).

(** [publish] *)
Definition publish (channel message : str) (arrivals : list recv_outcome)
  : M bool :=
  response <- _send_command
                (lit "PUBLISH " ++ channel ++ [SP] ++ message) arrivals ;;
  ret (str_eqb response (lit "OK")).

(** [publish_json] *)
Definition publish_json (channel : str) (data : json)
           (arrivals : list recv_outcome) : M bool :=
  let json_str := json_dumps data in
  response <- _send_command
                (lit "PUBLISH_JSON " ++ channel ++ [SP] ++ json_str)
                arrivals ;;
  ret (str_eqb response (lit "OK")).

(** [publish_int] *)
Definition publish_int (channel : str) (number : Z)
           (arrivals : list recv_outcome) : M bool :=
  response <- _send_command
                (lit "PUBLISH_INT " ++ channel ++ [SP] ++ str_of_int number)
                arrivals ;;
  ret (str_eqb response (lit "OK")).

(** [publish_binary] *)
Definition publish_binary (channel : str) (data : bytes)
           (arrivals : list recv_outcome) : M bool :=
  encoded <- decode (b64encode data) ;;
  response <- _send_command
                (lit "PUBLISH_BIN " ++ channel ++ [SP] ++ encoded) arrivals ;;
  ret (str_eqb response (lit "OK")).

(** [publish_array] *)
Definition publish_array (channel : str) (array : list json)
           (arrivals : list recv_outcome) : M bool :=
  let json_arr := json_dumps (JArr array) in
  response <- _send_command
                (lit "PUBLISH_ARRAY " ++ channel ++ [SP] ++ json_arr)
                arrivals ;;
  ret (str_eqb response (lit "OK")).

End Client.

End DushyRedisClient.

(* ================================================================== *)
(** ** Vocabulary of the properties *)
(* ================================================================== *)

Module Scenario.
Import Py DushyRedisClient.

(** A literal in which the apostrophe stands for the double quote. *)
Definition qlit (s : string) : str :=
  map (fun c => if c =? 39 then 34 else c) (lit s).

(** The complete lines of a text, without their newline, and the text
    after the last newline. *)
Fixpoint frame (s : str) : list str * str :=
  match s with
  | [] => ([], [])
  | c :: t =>
      let (ls, r) := frame t in
      if c =? NL then ([] :: ls, r)
      else match ls with
           | [] => ([], c :: r)
           | l :: ls' => ((c :: l) :: ls', r)
           end
  end.

(** Lines put back on the wire. *)
Definition unlines (ls : list str) : str :=
  flat_map (fun l => l ++ [NL]) ls.

(** The test of the classifier. *)
Definition is_push (line : str) : bool := startswith line (lit "Message").

(** What a framed line adds to the response queue. *)
Definition enqueued (line : str) : list str :=
  if bool_decide (line = []) then []
  else if is_push line then []
  else [strip line].

(** Every chunk decodes on its own to a text that is not empty. *)
Fixpoint decode_chunks (chunks : list bytes) : option (list str) :=
  match chunks with
  | [] => Some []
  | ch :: rest =>
      match utf8_decode ch, decode_chunks rest with
      | Some (c :: d), Some ds => Some ((c :: d) :: ds)
      | _, _ => None
      end
  end.

(** The client is connected, its reader waits at a line boundary and no
    response is pending. *)
Definition ready (c : client) : Prop :=
  sock c = Connected /\ running c = true
  /\ _read_thread c = Reading [] /\ response_queue c = [].

(** One command of a serialized caller: the command line, the one line
    the server answers with, the lines it pushes before that answer
    (notifications, or empty lines), and the chunks in which the reader
    receives all of it. *)
Record round := Round {
  cmd : str;
  pushes : list str;
  reply : str;
  chunks : list bytes
}.

Definition unsolicited (p : str) : bool :=
  (bool_decide (p = []) || is_push p) && bool_decide (NL ∉ p).

Definition wire (rd : round) : str :=
  unlines (pushes rd) ++ reply rd ++ [NL].

(** The server and the transport keep the protocol: the answer is one
    line, what precedes it is unsolicited, and the chunks hold exactly
    these lines, whole characters in each. *)
Definition wire_ok (rd : round) : bool :=
  bool_decide (NL ∉ reply rd)
  && forallb unsolicited (pushes rd)
  && match decode_chunks (chunks rd) with
     | Some ds => bool_decide (concat ds = wire rd)
     | None => false
     end.

(** The text that the reader receives during a round, when its chunks
    decode. *)
Definition decodable (rd : round) : bool :=
  bool_decide (is_Some (decode_chunks (chunks rd))).

Definition received (rd : round) : str :=
  concat (default [] (decode_chunks (chunks rd))).

(** The command can be put on the wire and its answer is a response
    line for the reader: not empty and not taken for a notification. *)
Definition answered (rd : round) : bool :=
  bool_decide (is_Some (utf8_encode (cmd rd ++ [NL])))
  && negb (bool_decide (reply rd = []))
  && negb (is_push (reply rd)).

Definition round_ok (rd : round) : bool := wire_ok rd && answered rd.

(** The one error of the run time that says "not connected": an
    OSError with errno ENOTCONN.  The client defines no exception class
    of its own. *)
Definition not_connected_error (e : exn) : Prop := e = OSError ENOTCONN.

(** The value of a string of decimal digits, read from the left;
    [None] when a character is not one of [0] to [9] (codes 48 to
    57). *)
Fixpoint digits_value (acc : Z) (s : str) : option Z :=
  match s with
  | [] => Some acc
  | c :: t =>
      if (48 <=? c) && (c <=? 57)
      then digits_value (acc * 10 + Z.of_N (c - 48)) t
      else None
  end.

(** [text] is the decimal numeral of the natural number [m]: digits
    only, at least one, of value [m], and without a leading zero unless
    it is the numeral [0]. *)
Definition numeral (m : Z) (text : str) : Prop :=
  text <> [] /\ digits_value 0 text = Some m
  /\ (head text = Some 48 -> text = [48]).

(** [text] is the plain text of a value: a string is its own text, an
    integer is written in decimal, with the sign [-] (code 45) before
    the numeral of a negative one, the booleans and [None] by their
    names; an object of another type has the text that its class
    gives. *)
Definition plain_text (value : pyobj) (text : str) : Prop :=
  match value with
  | OStr v => text = v
  | OInt n =>
      if (n <? 0)%Z then exists u, text = 45 :: u /\ numeral (- n) u
      else numeral n text
  | OBool b => text = if b then lit "True" else lit "False"
  | ONone => text = lit "None"
  | OOther r => text = r
  end.

(** The command line of [SET] as the specification words it: the word
    [SET], the key and the text of the value, separated by one space
    (code 32), the text of a string value between two double quotes
    (code 34), that of any other value as it is. *)
Definition set_line (key : str) (value : pyobj) (text : str) : str :=
  lit "SET " ++ key ++ [32]
  ++ match value with
     | OStr _ => [34] ++ text ++ [34]
     | _ => text
     end.

(** A computation neither reads nor writes the field [_read_thread]. *)
Definition thread_blind {A} (m : M A) : Prop :=
  forall t c, m (set_read_thread t c) = (set_read_thread t (m c).1, (m c).2).

(** What the dispatcher leaves untouched: everything but the record of
    the calls and of the printed lines. *)
Definition same_link (c c' : client) : Prop :=
  sock c' = sock c /\ sent c' = sent c
  /\ response_queue c' = response_queue c
  /\ subscriptions c' = subscriptions c
  /\ running c' = running c /\ _read_thread c' = _read_thread c.

Section Behaviour.

Variable json_loads : str -> option json.
Variable invoke : callback -> pyval -> option exn.
Variable errno_unconnected : errno.

Fixpoint process_lines (ls : list str) : M unit :=
  match ls with
  | [] => ret tt
  | l :: rest =>
      process_line json_loads invoke l ;;; process_lines rest
  end.

(** A caller that issues the commands one after the other, each one
    sent when the response of the one before has been taken. *)
Fixpoint session (script : list round) : M (list str) :=
  match script with
  | [] => ret []
  | rd :: rest =>
      r <- _send_command json_loads invoke errno_unconnected
             (cmd rd) (map Recv (chunks rd)) ;;
      rs <- session rest ;;
      ret (r :: rs)
  end.

(** The callbacks that a dispatch reaches when each one is handed [v]:
    those of the list up to the first one that raises, that one
    included. *)
Fixpoint called (cbs : list callback) (v : pyval) : list callback :=
  match cbs with
  | [] => []
  | cb :: rest =>
      cb :: match invoke cb v with
            | Some _ => []
            | None => called rest v
            end
  end.

(** A well-formed notification line for [channel] whose envelope
    decodes to [msg_type] and [content]. *)
Definition notification (channel json_str : str) (msg_type content : json)
  : Prop :=
  (SP ∉ channel)
  /\ exists message,
       json_loads json_str = Some message
       /\ subscript message (lit "Content") = Ok content
       /\ subscript message (lit "Type") = Ok msg_type.

Definition notification_line (channel json_str : str) : str :=
  lit "Message " ++ channel ++ [SP] ++ json_str.

End Behaviour.

(** *** Sample data *)

(** [json.loads] on the documents of the examples. *)
Definition sample_loads (s : str) : option json :=
  if str_eqb s (qlit "{'Type': 1, 'Content': 'hi'}")
  then Some (JObj [(lit "Type", JInt 1); (lit "Content", JStr (lit "hi"))])
  else if str_eqb s (qlit "{'Type': 2, 'Content': [66, 105, 110]}")
  then Some (JObj [(lit "Type", JInt 2);
                   (lit "Content", JArr [JInt 66; JInt 105; JInt 110])])
  else None.

(** Callback 0 raises on every message, the others return. *)
Definition sample_invoke (cb : callback) (v : pyval) : option exn :=
  if Nat.eqb cb 0 then Some (UserError 0) else None.

(** No callback raises. *)
Definition quiet_invoke (cb : callback) (v : pyval) : option exn := None.

Definition octets (s : str) : bytes := default [] (utf8_encode s).

(** A connected client, and the same with callbacks registered on
    channel [news]. *)
Definition connected : client :=
  Client Connected [] [] ∅ true (Reading []) [] [].

Definition with_callbacks (cbs : list callback) : client :=
  set_subscriptions (<[lit "news" := cbs]> ∅) connected.

Definition hi_envelope : str := qlit "{'Type': 1, 'Content': 'hi'}".
Definition bin_envelope : str :=
  qlit "{'Type': 2, 'Content': [66, 105, 110]}".

(** Two commands: the response of the first one arrives in two chunks,
    the second one is answered after a notification and an empty line,
    all in one chunk. *)
Definition sample_script : list round :=
  [ Round (lit "SET k 1") [] (lit "OK")
          [octets (lit "O"); octets (lit "K" ++ [NL])];
    Round (lit "GET k") [notification_line (lit "news") hi_envelope; []]
          (lit " 1 ")
          [octets (notification_line (lit "news") hi_envelope
                   ++ [NL; NL] ++ lit " 1 " ++ [NL])] ].

Definition set_round : round :=
  Round (set_line (lit "k") (OStr (lit "v")) (lit "v")) [] (lit "OK")
        [octets (lit "OK" ++ [NL])].

End Scenario.

(* ================================================================== *)
(** ** Sequences of calls *)
(* ================================================================== *)

Module Usage.
Import Py DushyRedisClient Scenario.

(** One use of the client by its owner: a call of a method, with what
    the reader receives during the call, or a run of the reader thread
    between two calls. *)
Inductive op :=
| OpConnect (reachable : bool)
| OpClose
| OpArrive (rs : list recv_outcome)
| OpSet (key : str) (value : pyobj) (arrivals : list recv_outcome)
| OpGet (key : str) (arrivals : list recv_outcome)
| OpLpush (key : str) (values : list pyobj) (arrivals : list recv_outcome)
| OpRpush (key : str) (values : list pyobj) (arrivals : list recv_outcome)
| OpLpop (key : str) (arrivals : list recv_outcome)
| OpRpop (key : str) (arrivals : list recv_outcome)
| OpSadd (key : str) (members : list pyobj) (arrivals : list recv_outcome)
| OpSmembers (key : str) (arrivals : list recv_outcome)
| OpHset (key field : str) (value : pyobj) (arrivals : list recv_outcome)
| OpHget (key field : str) (arrivals : list recv_outcome)
| OpSubscribe (channel : str) (cb : callback) (arrivals : list recv_outcome)
| OpPublish (channel message : str) (arrivals : list recv_outcome)
| OpPublishJson (channel : str) (data : json) (arrivals : list recv_outcome)
| OpPublishInt (channel : str) (number : Z) (arrivals : list recv_outcome)
| OpPublishBinary (channel : str) (data : bytes)
                (arrivals : list recv_outcome)
| OpPublishArray (channel : str) (array : list json)
               (arrivals : list recv_outcome).

(** The callbacks registered for a channel, none when it has no entry. *)
Definition registered (c : client) (channel : str) : list callback :=
  default [] (subscriptions c !! channel).

(** What [subscribe] does to the registry. *)
Definition register (channel : str) (cb : callback) (c : client) : client :=
  set_subscriptions
    (alter (fun l => l ++ [cb]) channel
       match subscriptions c !! channel with
       | None => <[channel := []]> (subscriptions c)
       | Some _ => subscriptions c
       end) c.

(** What [bytes(...)] accepts as an element: an int between 0 and 255,
    or a bool. *)
Definition byte_like (x : json) : bool :=
  match x with
  | JInt n => ((0 <=? n) && (n <? 256))%Z
  | JBool _ => true
  | _ => false
  end.

(** A token of a list answer: not empty, and without white space. *)
Definition token (t : str) : bool :=
  negb (bool_decide (t = [])) && forallb (fun c => negb (isspace c)) t.

(** Texts written one after the other with one space (code 32) before
    each one but the first. *)
Definition spaced (texts : list str) : str :=
  match texts with
  | [] => []
  | t :: rest => t ++ flat_map (fun u => 32 :: u) rest
  end.

(** [int] on a string of decimal digits, for the examples. *)
Definition sample_int (s : str) : option Z :=
  match s with
  | [] => None
  | _ :: _ => digits_value 0 s
  end.

(** Every transmission ends with the octet of the newline. *)
Definition terminated (data : bytes) : Prop := last data = Some x0a.

(** The six-bit value of a letter of base64, for reading a payload
    back. *)
Definition b64_value (b : byte) : option N :=
  let n := Byte.to_N b in
  if (65 <=? n) && (n <=? 90) then Some (n - 65)
  else if (97 <=? n) && (n <=? 122) then Some (n - 71)
  else if (48 <=? n) && (n <=? 57) then Some (n + 4)
  else if n =? 43 then Some 62
  else if n =? 47 then Some 63
  else None.

(** The octets that a payload of base64 stands for; [None] when it is
    not well formed. *)
Fixpoint b64decode (payload : bytes) : option bytes :=
  match payload with
  | [] => Some []
  | l0 :: l1 :: l2 :: l3 :: rest =>
      match b64_value l0, b64_value l1 with
      | Some v0, Some v1 =>
          match b64_value l2, b64_value l3, rest with
          | Some v2, Some v3, _ =>
              let n := v0 * 262144 + v1 * 4096 + v2 * 64 + v3 in
              cons (byte_of (n / 65536)) <$>
                (cons (byte_of ((n / 256) mod 256)) <$>
                   (cons (byte_of (n mod 256)) <$> b64decode rest))
          | Some v2, None, [] =>
              if Byte.to_N l3 =? 61
              then let n := v0 * 1024 + v1 * 16 + v2 / 4 in
                   Some [byte_of (n / 256); byte_of (n mod 256)]
              else None
          | None, None, [] =>
              if (Byte.to_N l2 =? 61) && (Byte.to_N l3 =? 61)
              then Some [byte_of (v0 * 4 + v1 / 16)]
              else None
          | _, _, _ => None
          end
      | _, _ => None
      end
  | _ => None
  end.

(** *** Sample data *)

(** A command answered with one line, received in one chunk. *)
Definition answer_round (line answer : str) : round :=
  Round line [] answer [octets (answer ++ [NL])].

(** A binary message with an element out of range, and [json.loads]
    on it and on the documents of [sample_loads]. *)
Definition bad_envelope : str := qlit "{'Type': 2, 'Content': [66, 300]}".

Definition more_loads (s : str) : option json :=
  if str_eqb s bad_envelope
  then Some (JObj [(lit "Type", JInt 2);
                   (lit "Content", JArr [JInt 66; JInt 300])])
  else sample_loads s.

(** [json.dumps] is not called on the sample data. *)
Definition sample_dumps (data : json) : str := lit "null".

(** A connected client whose reader holds the beginning of a line, one
    with a response left in its queue, and one whose reader has left
    its loop. *)
Definition mid_line : client :=
  set_read_thread (Reading (lit "O")) connected.

Definition stale : client := set_response_queue [lit "old"] connected.

Definition stopped : client := set_read_thread Finished connected.

Section Usage.

Variable json_loads : str -> option json.
Variable invoke : callback -> pyval -> option exn.
Variable errno_unconnected : errno.
Variable py_int : str -> option Z.
Variable json_dumps : json -> str.

(** The client after one use. *)
Definition step (c : client) (o : op) : client :=
  match o with
  | OpConnect reachable => (_connect reachable c).1
  | OpClose => (close c).1
  | OpArrive rs => _read_responses json_loads invoke rs c
  | OpSet key value a =>
      (set json_loads invoke errno_unconnected key value a c).1
  | OpGet key a => (get json_loads invoke errno_unconnected key a c).1
  | OpLpush key values a =>
      (lpush json_loads invoke errno_unconnected py_int key values a c).1
  | OpRpush key values a =>
      (rpush json_loads invoke errno_unconnected py_int key values a c).1
  | OpLpop key a => (lpop json_loads invoke errno_unconnected key a c).1
  | OpRpop key a => (rpop json_loads invoke errno_unconnected key a c).1
  | OpSadd key members a =>
      (sadd json_loads invoke errno_unconnected py_int key members a c).1
  | OpSmembers key a =>
      (smembers json_loads invoke errno_unconnected key a c).1
  | OpHset key field value a =>
      (hset json_loads invoke errno_unconnected key field value a c).1
  | OpHget key field a =>
      (hget json_loads invoke errno_unconnected key field a c).1
  | OpSubscribe channel cb a =>
      (subscribe json_loads invoke errno_unconnected channel cb a c).1
  | OpPublish channel message a =>
      (publish json_loads invoke errno_unconnected channel message a c).1
  | OpPublishJson channel data a =>
      (publish_json json_loads invoke errno_unconnected json_dumps
         channel data a c).1
  | OpPublishInt channel number a =>
      (publish_int json_loads invoke errno_unconnected channel number a c).1
  | OpPublishBinary channel data a =>
      (publish_binary json_loads invoke errno_unconnected channel data a c).1
  | OpPublishArray channel array a =>
      (publish_array json_loads invoke errno_unconnected json_dumps
         channel array a c).1
  end.

(** The client after a sequence of uses. *)
Definition run (ops : list op) (c : client) : client :=
  fold_left step ops c.

(** The elementary changes of the client record that the methods and
    the reader are made of. *)
Inductive prim : client -> client -> Prop :=
| prim_connect c :
    sock c = Fresh ->
    prim c (set_read_thread (Reading [])
              (set_running true (set_sock Connected c)))
| prim_close c :
    prim c (set_sock Closed (set_running false c))
| prim_reader c r :
    prim c (reader_step json_loads invoke c r)
| prim_send c line data :
    sock c = Connected -> utf8_encode (line ++ [NL]) = Some data ->
    prim c (set_sent (sent c ++ [data]) c)
| prim_get c x q :
    response_queue c = x :: q ->
    prim c (set_response_queue q c)
| prim_register c channel cb :
    prim c (register channel cb c).

(** The logs of [c'] continue those of [c], and so does the list of
    every channel. *)
Definition continues (c c' : client) : Prop :=
  sent c `prefix_of` sent c' /\ calls c `prefix_of` calls c'
  /\ stdout c `prefix_of` stdout c'
  /\ forall channel, registered c channel `prefix_of` registered c' channel.

(** Every callback that was invoked is registered for some channel. *)
Definition calls_registered (c : client) : Prop :=
  forall cb v, (cb, v) ∈ calls c ->
    exists channel, cb ∈ registered c channel.

(** What holds of a client however it was used since [__init__]. *)
Definition consistent (c : client) : Prop :=
  (running c = true <-> sock c = Connected)
  /\ (sock c = Fresh <-> _read_thread c = NotStarted /\ sock c <> Closed)
  /\ (_read_thread c = NotStarted ->
      sent c = [] /\ response_queue c = [] /\ calls c = [] /\ stdout c = [])
  /\ (forall b, _read_thread c = Reading b -> NL ∉ b)
  /\ Forall terminated (sent c)
  /\ calls_registered c.

End Usage.

End Usage.

(* ================================================================== *)
(** ** Facts about the built-ins *)
(* ================================================================== *)

Module PyFacts.
Import Py.

Lemma partition_Some sep s h r :
  partition sep s = Some (h, r) -> s = h ++ sep :: r /\ sep ∉ h.
Proof.
  revert h r. induction s as [|c t IH]; intros h r; simpl; [discriminate|].
  destruct (N.eqb_spec c sep) as [->|Hne].
  - intros [= <- <-]. split; [reflexivity | apply not_elem_of_nil].
  - destruct (partition sep t) as [[h' r']|]; [|discriminate].
    intros [= <- <-]. destruct (IH h' r' eq_refl) as [-> Hh].
    split; [reflexivity|]. rewrite not_elem_of_cons. split; [congruence | exact Hh].
Qed.

Lemma partition_None sep s : partition sep s = None <-> sep ∉ s.
Proof.
  induction s as [|c t IH]; simpl.
  - split; [intros _; apply not_elem_of_nil | reflexivity].
  - rewrite not_elem_of_cons. destruct (N.eqb_spec c sep) as [->|Hne].
    + split; [discriminate | intros [[] _]; reflexivity].
    + destruct (partition sep t) as [[h r]|].
      * split; [discriminate|]. intros [_ Ht]. apply IH in Ht. discriminate.
      * split; [|reflexivity]. intros _. split; [congruence | by apply IH].
Qed.

Lemma partition_app sep h r : sep ∉ h -> partition sep (h ++ sep :: r) = Some (h, r).
Proof.
  induction h as [|c t IH]; simpl; intros Hh.
  - by rewrite N.eqb_refl.
  - apply not_elem_of_cons in Hh as [Hc Ht].
    destruct (N.eqb_spec c sep) as [->|_]; [done|]. by rewrite IH.
Qed.

Lemma partition_length sep s h r :
  partition sep s = Some (h, r) -> length s = S (length h + length r).
Proof.
  intros H. apply partition_Some in H as [-> _].
  rewrite length_app. simpl. lia.
Qed.

Lemma startswith_prefix s p : startswith s p = true <-> exists t, s = p ++ t.
Proof.
  revert s. induction p as [|a p IH]; intros s; simpl.
  - split; [intros _; exists s; reflexivity | reflexivity].
  - destruct s as [|b s].
    + split; [discriminate | intros [t Ht]; discriminate].
    + rewrite andb_true_iff, N.eqb_eq, IH. split.
      * intros [-> [t ->]]. by exists t.
      * intros [t [= -> ->]]. eauto.
Qed.

(** [lstrip] removes a run of white space at the front and stops at the
    first character that is not white space. *)
Lemma lstrip_spec s :
  exists l, s = l ++ lstrip s /\ forallb isspace l = true
            /\ (forall c t, lstrip s = c :: t -> isspace c = false).
Proof.
  induction s as [|c t (l & Heq & Hl & Hhd)]; simpl.
  - exists []. split_and!; [reflexivity | reflexivity | discriminate].
  - destruct (isspace c) eqn:Hc.
    + exists (c :: l). simpl. rewrite Hc, Hl.
      split_and!; [by rewrite <- Heq | reflexivity | exact Hhd].
    + exists []. split_and!; [reflexivity | reflexivity |].
      intros c' t' [= <- <-]. exact Hc.
Qed.

Lemma rstrip_spec s :
  exists r, s = rstrip s ++ r /\ forallb isspace r = true
            /\ (forall t c, rstrip s = t ++ [c] -> isspace c = false).
Proof.
  unfold rstrip. destruct (lstrip_spec (rev s)) as (l & Heq & Hl & Hhd).
  exists (rev l). split_and!.
  - rewrite <- rev_app_distr, <- Heq. by rewrite rev_involutive.
  - rewrite forallb_forall in *. intros x Hx. apply Hl. by apply in_rev.
  - intros t c Ht. apply (f_equal (@rev _)) in Ht.
    rewrite rev_involutive, rev_app_distr in Ht. simpl in Ht. eauto.
Qed.

(** [strip] removes the white space at both ends and nothing else. *)
Lemma strip_spec s :
  exists l r, s = l ++ strip s ++ r
              /\ forallb isspace l = true /\ forallb isspace r = true
              /\ (forall c t, strip s = c :: t -> isspace c = false)
              /\ (forall t c, strip s = t ++ [c] -> isspace c = false).
Proof.
  unfold strip. destruct (lstrip_spec s) as (l & Hs & Hl & Hhd).
  destruct (rstrip_spec (lstrip s)) as (r & Hr & Hrs & Hlast).
  exists l, r. split_and!; try done.
  - by rewrite <- Hr.
  - intros c t Hc. rewrite Hc in Hr. simpl in Hr. eauto.
Qed.

(** Decoding is compositional on chunks that decode on their own. *)
Lemma utf8_decode_app a b x y :
  utf8_decode a = Some x -> utf8_decode b = Some y ->
  utf8_decode (a ++ b) = Some (x ++ y).
Proof.
  intros Ha Hb. revert x Ha.
  induction a as [a IH] using (induction_ltof1 _ (@length byte)).
  unfold ltof in IH. intros x.
  destruct a as [|b0 t0]; [by intros [= <-]|].
  cbn [utf8_decode app].
  assert (Hstep : forall (t : bytes) (c : char) (x : str),
            (length t < length (b0 :: t0))%nat ->
            cons c <$> utf8_decode t = Some x ->
            cons c <$> utf8_decode (t ++ b) = Some (x ++ y)).
  { intros t c x' Hlen Hx. destruct (utf8_decode t) as [d|] eqn:Hd; [|done].
    injection Hx as <-. by rewrite (IH t Hlen d Hd). }
  repeat case_match; try discriminate; simplify_eq/=;
    try congruence; try (apply Hstep; simpl; lia).
Qed.

Lemma byte_items_not_block xs : byte_items xs <> Block.
Proof.
  induction xs as [|x xs IH]; simpl; [done|].
  destruct x; simpl; repeat case_match; try done;
    destruct (byte_items xs); simpl; done.
Qed.

Lemma to_bytes_not_block v : to_bytes v <> Block.
Proof.
  destruct v as [j|b]; [|done]. destruct j; simpl; repeat case_match; try done.
  pose proof (byte_items_not_block xs). destruct (byte_items xs); done.
Qed.

Lemma subscript_not_block obj key : subscript obj key <> Block.
Proof. destruct obj; simpl; repeat case_match; done. Qed.

(** [bytes(b)] of a bytes object is that object again. *)
Lemma to_bytes_idem v w : to_bytes v = Ok w -> to_bytes w = Ok w.
Proof.
  destruct v as [j|b]; simpl.
  - destruct j; simpl; repeat case_match; try discriminate;
      try (intros [= <-]; reflexivity).
    destruct (byte_items xs); simpl; try discriminate.
    intros [= <-]. reflexivity.
  - intros [= <-]. reflexivity.
Qed.

(** The octets of a JSON array of integers between 0 and 255. *)
Lemma byte_items_ints (ns : list Z) :
  Forall (fun n => (0 <= n < 256)%Z) ns ->
  byte_items (map JInt ns) = Ok (map (fun n => byte_of (Z.to_N n)) ns).
Proof.
  induction 1 as [|n ns Hn _ IH]; simpl; [done|].
  rewrite IH. simpl.
  destruct (Z.leb_spec 0 n); [|lia]. destruct (Z.ltb_spec n 256); [|lia].
  reflexivity.
Qed.

End PyFacts.

(* ================================================================== *)
(** ** Facts about the client *)
(* ================================================================== *)

Module ClientFacts.
Import Py DushyRedisClient Scenario Usage PyFacts.

(** *** Framing *)

Lemma frame_no_nl s : NL ∉ s -> frame s = ([], s).
Proof.
  induction s as [|c t IH]; simpl; [done|].
  rewrite not_elem_of_cons. intros [Hc Ht]. rewrite (IH Ht).
  destruct (N.eqb_spec c NL); [congruence | reflexivity].
Qed.

Lemma frame_line h r :
  NL ∉ h -> frame (h ++ NL :: r) = (h :: (frame r).1, (frame r).2).
Proof.
  induction h as [|c t IH]; simpl.
  - intros _. by destruct (frame r).
  - rewrite not_elem_of_cons. intros [Hc Ht]. rewrite (IH Ht).
    destruct (N.eqb_spec c NL); [congruence | reflexivity].
Qed.

Lemma frame_unlines ls u :
  Forall (fun l => NL ∉ l) ls ->
  frame (unlines ls ++ u) = (ls ++ (frame u).1, (frame u).2).
Proof.
  induction 1 as [|l ls Hl _ IH]; simpl.
  - by destruct (frame u).
  - change (unlines (l :: ls)) with ((l ++ [NL]) ++ unlines ls).
    rewrite <- !app_assoc. cbn [app].
    rewrite (frame_line l _ Hl). by rewrite IH.
Qed.

Lemma frame_decompose s :
  s = unlines (frame s).1 ++ (frame s).2
  /\ Forall (fun l => NL ∉ l) (frame s).1 /\ NL ∉ (frame s).2.
Proof.
  induction s as [|c t (Heq & Hls & Hr)]; simpl.
  - split_and!; [done | constructor | apply not_elem_of_nil].
  - destruct (frame t) as [ls r]. simpl in *.
    destruct (N.eqb_spec c NL) as [->|Hc]; simpl.
    + split_and!; [by rewrite <- Heq | | done].
      constructor; [apply not_elem_of_nil | done].
    + destruct ls as [|l ls]; simpl in *.
      * split_and!; [by rewrite <- Heq | constructor |].
        rewrite not_elem_of_cons. split; [congruence | done].
      * inversion Hls as [|? ? Hl Hls']; subst.
        split_and!; [done | | done].
        constructor; [|done]. rewrite not_elem_of_cons.
        split; [congruence | done].
Qed.

(** Framing a text in two pieces gives the lines of the whole. *)
Lemma frame_app s t :
  frame (s ++ t)
  = ((frame s).1 ++ (frame ((frame s).2 ++ t)).1,
     (frame ((frame s).2 ++ t)).2).
Proof.
  destruct (frame_decompose s) as (Heq & Hls & _).
  rewrite Heq at 1. rewrite <- app_assoc. by apply frame_unlines.
Qed.

(** *** The state-and-result monad *)

Lemma mbind_assoc {A B C} (m : M A) (k : A -> M B) (h : B -> M C) c :
  mbind (mbind m k) h c = mbind m (fun a => mbind (k a) h) c.
Proof. unfold mbind. destruct (m c) as [c' [a|e|]]; reflexivity. Qed.

Lemma mbind_ext {A B} (m : M A) (k k' : A -> M B) c :
  (forall a c', k a c' = k' a c') -> mbind m k c = mbind m k' c.
Proof. intros H. unfold mbind. destruct (m c) as [c' [a|e|]]; auto. Qed.

Lemma blind_ret {A} (a : A) : thread_blind (ret a).
Proof. done. Qed.

Lemma blind_raise {A} e : thread_blind (@raise A e).
Proof. done. Qed.

Lemma blind_lift {A} (r : result A) : thread_blind (lift r).
Proof. done. Qed.

Lemma blind_print p : thread_blind (print p).
Proof. done. Qed.

Lemma blind_queue_put x : thread_blind (queue_put x).
Proof. done. Qed.

Lemma blind_mbind {A B} (m : M A) (k : A -> M B) :
  thread_blind m -> (forall a, thread_blind (k a)) -> thread_blind (mbind m k).
Proof.
  intros Hm Hk t c. unfold mbind. rewrite Hm.
  destruct (m c) as [c' [a|e|]]; simpl; [apply Hk | done | done].
Qed.

Lemma blind_try_except {A} (m : M A) (h : exn -> M A) :
  thread_blind m -> (forall e, thread_blind (h e)) ->
  thread_blind (try_except m h).
Proof.
  intros Hm Hh t c. unfold try_except. rewrite Hm.
  destruct (m c) as [c' [a|e|]]; simpl; [done | apply Hh | done].
Qed.

Create HintDb blind discriminated.
#[local] Hint Resolve blind_ret blind_raise blind_lift blind_print
  blind_queue_put blind_mbind blind_try_except : blind.

Section Facts.

Variable json_loads : str -> option json.
Variable invoke : callback -> pyval -> option exn.
Variable errno_unconnected : errno.

Local Abbreviation call := (DushyRedisClient.call invoke).
Local Abbreviation for_callbacks := (DushyRedisClient.for_callbacks invoke).
Local Abbreviation dispatch := (DushyRedisClient.dispatch json_loads invoke).
Local Abbreviation handle_message :=
  (DushyRedisClient.handle_message json_loads invoke).
Local Abbreviation process_line :=
  (DushyRedisClient.process_line json_loads invoke).
Local Abbreviation process_lines := (Scenario.process_lines json_loads invoke).
Local Abbreviation while_newline :=
  (DushyRedisClient.while_newline json_loads invoke).
Local Abbreviation drain := (DushyRedisClient.drain json_loads invoke).
Local Abbreviation reader_turn :=
  (DushyRedisClient.reader_turn json_loads invoke).
Local Abbreviation reader_step :=
  (DushyRedisClient.reader_step json_loads invoke).
Local Abbreviation _read_responses :=
  (DushyRedisClient._read_responses json_loads invoke).
Local Abbreviation socket_send :=
  (DushyRedisClient.socket_send errno_unconnected).
Local Abbreviation _send_command :=
  (DushyRedisClient._send_command json_loads invoke errno_unconnected).
Local Abbreviation set := (DushyRedisClient.set json_loads invoke errno_unconnected).
Local Abbreviation subscribe :=
  (DushyRedisClient.subscribe json_loads invoke errno_unconnected).
Local Abbreviation session :=
  (Scenario.session json_loads invoke errno_unconnected).
Local Abbreviation notification := (Scenario.notification json_loads).
Local Abbreviation called := (Scenario.called invoke).

(** Opens [_send_command] up to the first step that depends on the
    state. *)
Ltac unfold_send :=
  unfold DushyRedisClient._send_command, mbind, encode,
    DushyRedisClient.socket_send.

(** *** The dispatcher *)

Lemma blind_call cb v : thread_blind (call cb v).
Proof. intros t c. unfold DushyRedisClient.call. by destruct (invoke cb v). Qed.

Lemma blind_for_callbacks cbs ty v : thread_blind (for_callbacks cbs ty v).
Proof.
  revert v. induction cbs as [|cb cbs IH]; intros v; simpl;
    auto 6 using blind_call with blind.
Qed.

Lemma blind_dispatch line : thread_blind (dispatch line).
Proof.
  unfold DushyRedisClient.dispatch.
  repeat case_match; try apply blind_raise.
  intros t c. simpl. destruct (subscriptions c !! _); [|done].
  apply blind_mbind; [auto with blind|]. intros content.
  apply blind_mbind; [auto with blind|]. intros ty.
  apply blind_for_callbacks.
Qed.

Lemma blind_process_line line : thread_blind (process_line line).
Proof.
  unfold DushyRedisClient.process_line.
  repeat case_match; auto with blind.
  apply blind_try_except; auto using blind_dispatch with blind.
Qed.

Lemma blind_process_lines ls : thread_blind (process_lines ls).
Proof.
  induction ls as [|l ls IH]; simpl;
    auto using blind_process_line with blind.
Qed.

Lemma same_link_refl c : same_link c c.
Proof. by repeat split. Qed.

Lemma same_link_trans c1 c2 c3 :
  same_link c1 c2 -> same_link c2 c3 -> same_link c1 c3.
Proof.
  unfold same_link. intros (?&?&?&?&?&?) (?&?&?&?&?&?).
  split_and!; congruence.
Qed.

Lemma for_callbacks_link cbs ty v c :
  same_link c (for_callbacks cbs ty v c).1
  /\ (for_callbacks cbs ty v c).2 <> Block.
Proof.
  revert v c. induction cbs as [|cb cbs IH]; intros v c; simpl.
  - split; [apply same_link_refl | done].
  - unfold mbind, lift, loop_content.
    pose proof (to_bytes_not_block v) as Hnb.
    destruct (if eq_int ty 2 then to_bytes v else Ok v) as [v'|e|] eqn:Hv;
      simpl.
    + unfold DushyRedisClient.call. destruct (invoke cb v'); simpl.
      * split; [by repeat split | done].
      * destruct (IH v' (set_calls (calls c ++ [(cb, v')]) c)) as [Hl Hr].
        split; [|done]. eapply same_link_trans; [|exact Hl]. by repeat split.
    + split; [apply same_link_refl | done].
    + destruct (eq_int ty 2); done.
Qed.

Lemma dispatch_link line c :
  same_link c (dispatch line c).1 /\ (dispatch line c).2 <> Block.
Proof.
  unfold DushyRedisClient.dispatch.
  repeat case_match; try (split; [apply same_link_refl | done]).
  unfold mbind, lift.
  repeat case_match; simplify_eq/=;
    try (split; [apply same_link_refl | done]);
    try apply for_callbacks_link;
    exfalso; eapply subscript_not_block; eassumption.
Qed.

Lemma handle_message_link line c :
  same_link c (handle_message line c).1 /\ (handle_message line c).2 = Ok tt.
Proof.
  unfold DushyRedisClient.handle_message, try_except.
  destruct (dispatch_link line c) as [Hl Hr].
  destruct (dispatch line c) as [c' [[]|e|]]; simpl in *; [done | | done].
  split; [|done]. eapply same_link_trans; [exact Hl|]. by repeat split.
Qed.

(** The effect of one framed line on the connection: the line never
    makes the loop fail, and only the response queue can change. *)
Lemma process_line_effect line c :
  (process_line line c).2 = Ok tt
  /\ sock (process_line line c).1 = sock c
  /\ sent (process_line line c).1 = sent c
  /\ subscriptions (process_line line c).1 = subscriptions c
  /\ running (process_line line c).1 = running c
  /\ _read_thread (process_line line c).1 = _read_thread c
  /\ response_queue (process_line line c).1
     = response_queue c ++ enqueued line.
Proof.
  unfold DushyRedisClient.process_line, enqueued, is_push.
  destruct (bool_decide (line = [])).
  - simpl. by rewrite app_nil_r.
  - destruct (startswith line (lit "Message")).
    + destruct (handle_message_link line c) as [(?&?&?&?&?&?) ?].
      rewrite app_nil_r. by split_and!.
    + done.
Qed.

Lemma process_lines_effect ls c :
  (process_lines ls c).2 = Ok tt
  /\ sock (process_lines ls c).1 = sock c
  /\ sent (process_lines ls c).1 = sent c
  /\ subscriptions (process_lines ls c).1 = subscriptions c
  /\ running (process_lines ls c).1 = running c
  /\ _read_thread (process_lines ls c).1 = _read_thread c
  /\ response_queue (process_lines ls c).1
     = response_queue c ++ flat_map enqueued ls.
Proof.
  revert c. induction ls as [|l ls IH]; intros c; simpl.
  - by rewrite app_nil_r.
  - unfold mbind.
    destruct (process_line_effect l c) as (Hr&?&?&?&?&?&Hq).
    destruct (process_line l c) as [c' r]. simpl in *. subst r.
    destruct (IH c') as (?&?&?&?&?&?&Hq').
    rewrite Hq', Hq, <- app_assoc. split_and!; congruence.
Qed.

Lemma process_lines_app ls1 ls2 c :
  process_lines (ls1 ++ ls2) c
  = (process_lines ls1 ;;; process_lines ls2) c.
Proof.
  revert c. induction ls1 as [|l ls1 IH]; intros c; simpl; [done|].
  rewrite mbind_assoc. apply mbind_ext. intros _ c'. apply IH.
Qed.

(** *** The inner loop *)

Lemma while_newline_frame n s c :
  (length s <= n)%nat ->
  while_newline n s c = (process_lines (frame s).1 ;;; ret (frame s).2) c.
Proof.
  revert s c. induction n as [|n IH]; intros s c Hlen.
  - destruct s; [done | simpl in Hlen; lia].
  - simpl. destruct (partition NL s) as [[h r]|] eqn:Hp.
    + pose proof (partition_length _ _ _ _ Hp) as Hl.
      apply partition_Some in Hp as [-> Hh].
      rewrite (frame_line h r Hh). simpl. rewrite mbind_assoc.
      apply mbind_ext. intros _ c'. apply IH. lia.
    + apply partition_None in Hp. by rewrite (frame_no_nl s Hp).
Qed.

(** The loop handles the complete lines of the buffer in order and
    leaves what follows the last newline. *)
Lemma drain_frame s c :
  drain s c
  = ((process_lines (frame s).1 c).1, Ok (frame s).2).
Proof.
  unfold DushyRedisClient.drain. rewrite while_newline_frame by done.
  unfold mbind. destruct (process_lines_effect (frame s).1 c) as [Hr _].
  destruct (process_lines (frame s).1 c) as [c' r]. simpl in *. by subst r.
Qed.

(** *** The reader over successive chunks *)

Lemma set_read_thread_id c : set_read_thread (_read_thread c) c = c.
Proof. by destruct c. Qed.

Lemma reader_step_chunk c b ch d :
  _read_thread c = Reading b -> running c = true ->
  utf8_decode ch = Some d -> d <> [] ->
  reader_step c (Recv ch)
  = set_read_thread (Reading (frame (b ++ d)).2)
      (process_lines (frame (b ++ d)).1 c).1.
Proof.
  intros Ht Hr Hd Hne. unfold DushyRedisClient.reader_step.
  rewrite Ht. unfold DushyRedisClient.reader_turn, try_except.
  rewrite Hd. destruct d as [|x d]; [done|].
  unfold mbind. rewrite drain_frame. cbn [fst snd].
  destruct (process_lines_effect (frame (b ++ x :: d)).1 c)
    as (_ & _ & _ & _ & Hrun & _).
  unfold ret. by rewrite Hrun, Hr.
Qed.

Lemma decode_chunks_cons ch rest ds :
  decode_chunks (ch :: rest) = Some ds ->
  exists d ds', utf8_decode ch = Some d /\ d <> []
                /\ decode_chunks rest = Some ds' /\ ds = d :: ds'.
Proof.
  simpl. destruct (utf8_decode ch) as [[|x d]|]; try discriminate.
  destruct (decode_chunks rest) as [ds'|]; [|discriminate].
  intros [= <-]. by exists (x :: d), ds'.
Qed.

Lemma decode_chunks_concat chunks ds :
  decode_chunks chunks = Some ds ->
  utf8_decode (concat chunks) = Some (concat ds).
Proof.
  revert ds. induction chunks as [|ch rest IH]; intros ds.
  - by intros [= <-].
  - intros (d & ds' & Hd & _ & Hrest & ->)%decode_chunks_cons.
    simpl. apply utf8_decode_app; auto.
Qed.

(** However the text arrives, the reader handles the complete lines of
    all of it, in order, and keeps the rest in its buffer. *)
Lemma reader_chunks chunks : forall ds c b,
  _read_thread c = Reading b -> running c = true -> NL ∉ b ->
  decode_chunks chunks = Some ds ->
  _read_responses (map Recv chunks) c
  = set_read_thread (Reading (frame (b ++ concat ds)).2)
      (process_lines (frame (b ++ concat ds)).1 c).1.
Proof.
  induction chunks as [|ch rest IH]; intros ds c b Ht Hr Hb Hds.
  - injection Hds as <-. simpl. rewrite app_nil_r, (frame_no_nl b Hb).
    simpl. rewrite <- Ht. by rewrite set_read_thread_id.
  - apply decode_chunks_cons in Hds as (d & ds' & Hd & Hne & Hrest & ->).
    cbn [map DushyRedisClient._read_responses fold_left].
    rewrite (reader_step_chunk c b ch d Ht Hr Hd Hne).
    destruct (frame_decompose (b ++ d)) as (_ & _ & Hrest_nl).
    destruct (process_lines_effect (frame (b ++ d)).1 c)
      as (Hok & _ & _ & _ & Hrun & _).
    change (fold_left reader_step (map Recv rest) ?x)
      with (_read_responses (map Recv rest) x).
    rewrite (IH ds' _ (frame (b ++ d)).2); [|done|by rewrite <- Hr|done|done].
    rewrite blind_process_lines. cbn [fst snd concat].
    rewrite app_assoc, (frame_app (b ++ d)). cbn [fst snd].
    rewrite process_lines_app. unfold mbind.
    destruct (process_lines (frame (b ++ d)).1 c) as [c1 r1].
    simpl in Hok. subst r1. reflexivity.
Qed.

(** The state of the connection does not depend on how the octets of
    the stream are cut into chunks, as long as every chunk holds whole
    characters. *)
Lemma chunking_independent chunks1 chunks2 ds1 ds2 c b :
  _read_thread c = Reading b -> running c = true -> NL ∉ b ->
  decode_chunks chunks1 = Some ds1 -> decode_chunks chunks2 = Some ds2 ->
  concat chunks1 = concat chunks2 ->
  _read_responses (map Recv chunks1) c = _read_responses (map Recv chunks2) c.
Proof.
  intros Ht Hr Hb H1 H2 Heq.
  rewrite (reader_chunks chunks1 ds1 c b), (reader_chunks chunks2 ds2 c b)
    by done.
  apply decode_chunks_concat in H1, H2. rewrite Heq in H1.
  by replace (concat ds2) with (concat ds1) by congruence.
Qed.

(** A reader that has left its loop, or was never started, does
    nothing. *)
Lemma reader_stopped rs c :
  (forall b, _read_thread c <> Reading b) -> _read_responses rs c = c.
Proof.
  revert c. induction rs as [|r rs IH]; intros c H; [done|].
  cbn [DushyRedisClient._read_responses fold_left].
  change (fold_left reader_step rs ?x) with (_read_responses rs x).
  assert (Hstep : reader_step c r = c).
  { unfold DushyRedisClient.reader_step.
    destruct (_read_thread c) as [|b|] eqn:Ht; [done | | done].
    by destruct (H b). }
  rewrite Hstep. by apply IH.
Qed.

(** A turn of the reader changes neither [running] nor the socket. *)
Lemma reader_turn_running r b c :
  running (reader_turn r b c).1 = running c.
Proof.
  unfold DushyRedisClient.reader_turn, try_except.
  destruct r as [octets|e]; [|done].
  destruct (utf8_decode octets) as [[|x d]|]; [done | | done].
  unfold mbind. rewrite drain_frame. simpl.
  by destruct (process_lines_effect (frame (b ++ x :: d)).1 c)
    as (_ & _ & _ & _ & ? & _).
Qed.

(** Once [running] is false the reader takes at most the turn of the
    [recv] it is in, and then leaves its loop. *)
Lemma reader_last_turn r rs c :
  running c = false ->
  _read_responses (r :: rs) c = reader_step c r
  /\ (forall b, _read_thread (reader_step c r) <> Reading b).
Proof.
  intros Hr.
  assert (Hleft : forall b, _read_thread (reader_step c r) <> Reading b).
  { intros b'. unfold DushyRedisClient.reader_step.
    destruct (_read_thread c) as [|b|] eqn:Ht; [by rewrite Ht | | by rewrite Ht].
    pose proof (reader_turn_running r b c) as Hrun.
    destruct (reader_turn r b c) as [c' [[b1|]|e|]]; try done.
    simpl in Hrun. by rewrite Hrun, Hr. }
  split; [|exact Hleft].
  cbn [DushyRedisClient._read_responses fold_left].
  change (fold_left reader_step rs ?x) with (_read_responses rs x).
  by apply reader_stopped.
Qed.

(** *** One command of a serialized caller *)

Lemma enqueued_unsolicited ps :
  forallb unsolicited ps = true -> flat_map enqueued ps = [].
Proof.
  induction ps as [|p ps IH]; simpl; [done|].
  rewrite andb_true_iff. intros [Hp Hps]. rewrite (IH Hps), app_nil_r.
  unfold unsolicited in Hp. unfold enqueued.
  apply andb_true_iff in Hp as [Hp _]. apply orb_true_iff in Hp as [Hp|Hp].
  - by rewrite Hp.
  - rewrite Hp. by destruct (bool_decide (p = [])).
Qed.

Lemma unsolicited_no_nl ps :
  forallb unsolicited ps = true -> Forall (fun l => NL ∉ l) ps.
Proof.
  rewrite forallb_forall, Forall_forall. intros H p Hp.
  apply list_elem_of_In, H in Hp. unfold unsolicited in Hp.
  apply andb_true_iff in Hp as [_ Hp]. by apply bool_decide_eq_true in Hp.
Qed.

(** The connection after the reader has received chunks of whole
    characters: the lines completed by them are handled in order, and
    the responses among them join the queue. *)
Lemma reader_arrivals chunks ds c b :
  _read_thread c = Reading b -> running c = true -> NL ∉ b ->
  decode_chunks chunks = Some ds ->
  let c2 := _read_responses (map Recv chunks) c in
  response_queue c2
  = response_queue c ++ flat_map enqueued (frame (b ++ concat ds)).1
  /\ _read_thread c2 = Reading (frame (b ++ concat ds)).2
  /\ sock c2 = sock c /\ running c2 = true /\ sent c2 = sent c
  /\ subscriptions c2 = subscriptions c.
Proof.
  intros Ht Hr Hb Hds. simpl.
  rewrite (reader_chunks chunks ds c b Ht Hr Hb Hds).
  destruct (process_lines_effect (frame (b ++ concat ds)).1 c)
    as (_ & Hs' & Hsent' & Hsub' & Hr' & _ & Hq').
  simpl. split_and!; congruence.
Qed.

(** The connection after the command of a round is sent and the reader
    has received the chunks of the round. *)
Lemma round_state rd c data :
  ready c -> wire_ok rd = true ->
  let c2 := _read_responses (map Recv (chunks rd))
              (set_sent (sent c ++ [data]) c) in
  response_queue c2 = enqueued (reply rd)
  /\ _read_thread c2 = Reading [] /\ sock c2 = Connected
  /\ running c2 = true /\ sent c2 = sent c ++ [data]
  /\ subscriptions c2 = subscriptions c.
Proof.
  intros (Hs & Hr & Ht & Hq) Hok. unfold wire_ok in Hok.
  apply andb_true_iff in Hok as [Hok Hwire].
  apply andb_true_iff in Hok as [Hnl Hps].
  apply bool_decide_eq_true in Hnl.
  destruct (decode_chunks (chunks rd)) as [ds|] eqn:Hds; [|done].
  apply bool_decide_eq_true in Hwire.
  destruct (reader_arrivals (chunks rd) ds
              (set_sent (sent c ++ [data]) c) [])
    as (Hq' & Ht' & Hs' & Hr' & Hsent' & Hsub');
    [done | done | apply not_elem_of_nil | done |].
  cbn [app] in Hq', Ht'. rewrite Hwire in Hq', Ht'. unfold wire in Hq', Ht'.
  rewrite frame_unlines in Hq', Ht' by by apply unsolicited_no_nl.
  rewrite (frame_line (reply rd) [] Hnl) in Hq', Ht'.
  cbn [fst snd frame app] in Hq', Ht'.
  rewrite flat_map_app, (enqueued_unsolicited _ Hps) in Hq'.
  simpl in Hq', Hs', Hsent', Hsub'. rewrite app_nil_r, Hq in Hq'.
  simpl in Hq'. simpl. split_and!; congruence.
Qed.

Lemma round_effect rd c :
  ready c -> round_ok rd = true ->
  exists c' data,
    _send_command (cmd rd) (map Recv (chunks rd)) c
    = (c', Ok (strip (reply rd)))
    /\ ready c'
    /\ utf8_encode (cmd rd ++ [NL]) = Some data
    /\ sent c' = sent c ++ [data]
    /\ subscriptions c' = subscriptions c.
Proof.
  intros Hc Hok. unfold round_ok in Hok.
  apply andb_true_iff in Hok as [Hwire Hans]. unfold answered in Hans.
  apply andb_true_iff in Hans as [Hans Hpush].
  apply andb_true_iff in Hans as [Henc Hne].
  apply bool_decide_eq_true in Henc as [data Hdata].
  apply negb_true_iff in Hne, Hpush.
  destruct (round_state rd c data Hc Hwire)
    as (Hq & Ht & Hs & Hr & Hsent & Hsub).
  unfold enqueued in Hq. rewrite Hne, Hpush in Hq.
  eexists _, data. split; [|split_and!].
  - unfold_send.
    rewrite Hdata. simpl. destruct Hc as (-> & _).
    unfold queue_get. rewrite Hq. reflexivity.
  - by repeat split.
  - done.
  - done.
  - done.
Qed.

(** A command that cannot be encoded, or whose answer is empty or
    taken for a notification, gets no response at all: the call raises,
    or the caller stays suspended. *)
Lemma round_unanswered rd c :
  ready c -> wire_ok rd = true -> answered rd = false ->
  forall c' r,
    _send_command (cmd rd) (map Recv (chunks rd)) c <> (c', Ok r).
Proof.
  intros Hc Hwire Hans c' r.
  unfold_send.
  destruct (utf8_encode (cmd rd ++ [NL])) as [data|] eqn:Hdata;
    simpl; [|done].
  destruct (round_state rd c data Hc Hwire) as (Hq & _).
  destruct Hc as (-> & _). unfold queue_get. rewrite Hq.
  unfold answered in Hans. rewrite Hdata in Hans.
  rewrite (bool_decide_eq_true_2 _ (mk_is_Some _ _ eq_refl)) in Hans.
  simpl in Hans. unfold enqueued.
  destruct (bool_decide (reply rd = [])); [done|].
  simpl in Hans. apply negb_false_iff in Hans. by rewrite Hans.
Qed.

(** *** Claims on the command path *)

Lemma session_fifo script : forall c,
  ready c -> forallb round_ok script = true ->
  exists c',
    session script c = (c', Ok (map (fun rd => strip (reply rd)) script))
    /\ ready c'
    /\ sent c' = sent c ++ map (fun rd => octets (cmd rd ++ [NL])) script.
Proof.
  induction script as [|rd script IH]; intros c Hc Hok.
  - exists c. simpl. by rewrite app_nil_r.
  - simpl in Hok. apply andb_true_iff in Hok as [Hrd Hrest].
    destruct (round_effect rd c Hc Hrd)
      as (c1 & data & Hsend & Hc1 & Hdata & Hsent & _).
    destruct (IH c1 Hc1 Hrest) as (c2 & Hsess & Hc2 & Hsent2).
    exists c2. split_and!; [|done|].
    + cbn [Scenario.session]. unfold mbind at 1. rewrite Hsend.
      unfold mbind. rewrite Hsess. reflexivity.
    + rewrite Hsent2, Hsent, <- app_assoc. simpl.
      unfold octets. by rewrite Hdata.
Qed.

(** The responses come out of the queue in the order in which the
    reader put them in: at the end of a session, the lines enqueued
    from the whole of the stream are the values returned, in order,
    followed by what is still in the queue.  Nothing is assumed of the
    stream but that each chunk holds whole characters; chunks may end
    anywhere in a line. *)
Lemma session_queue_order script : forall c b c' rs,
  sock c = Connected -> running c = true ->
  _read_thread c = Reading b -> NL ∉ b ->
  forallb decodable script = true ->
  session script c = (c', Ok rs) ->
  response_queue c
  ++ flat_map enqueued (frame (b ++ flat_map received script)).1
  = rs ++ response_queue c'.
Proof.
  induction script as [|rd script IH]; intros c b c' rs Hs Hr Ht Hb Hdec Hses.
  - injection Hses as <- <-. simpl. rewrite app_nil_r.
    by rewrite (frame_no_nl b Hb), app_nil_r.
  - simpl in Hdec. apply andb_true_iff in Hdec as [Hrd Hrest].
    apply bool_decide_eq_true in Hrd as [ds Hds].
    cbn [Scenario.session] in Hses. unfold mbind at 1 in Hses.
    unfold DushyRedisClient._send_command, mbind, encode,
      DushyRedisClient.socket_send in Hses.
    destruct (utf8_encode (cmd rd ++ [NL])) as [data|]; simpl in Hses;
      [|discriminate].
    rewrite Hs in Hses.
    destruct (reader_arrivals (chunks rd) ds
                (set_sent (sent c ++ [data]) c) b Ht Hr Hb Hds)
      as (Hq1 & Ht1 & Hs1 & Hr1 & _).
    set (c1 := _read_responses (map Recv (chunks rd))
                 (set_sent (sent c ++ [data]) c)) in *.
    unfold queue_get in Hses.
    destruct (response_queue c1) as [|r q] eqn:Hq; [discriminate|].
    destruct (session script (set_response_queue q c1))
      as [c2 [rs'|e|]] eqn:Hrest_s; try discriminate.
    injection Hses as <- <-.
    destruct (frame_decompose (b ++ concat ds)) as (_ & _ & Hb1).
    simpl in Hs1. rewrite Hs in Hs1.
    pose proof (IH (set_response_queue q c1) _ c2 rs'
                  Hs1 Hr1 Ht1 Hb1 Hrest Hrest_s) as HIH.
    simpl in HIH, Hq1. cbn [flat_map]. unfold received at 1. rewrite Hds.
    simpl. rewrite app_assoc, (frame_app (b ++ concat ds)). cbn [fst].
    rewrite flat_map_app, app_assoc, <- Hq1. simpl. by rewrite HIH.
Qed.

(** A session returns only when every one of its commands was
    answered. *)
Lemma session_returns_answered script : forall c c' rs,
  ready c -> forallb wire_ok script = true ->
  session script c = (c', Ok rs) ->
  forallb answered script = true.
Proof.
  induction script as [|rd script IH]; intros c c' rs Hc Hwire Hs; [done|].
  simpl in Hwire. apply andb_true_iff in Hwire as [Hrd Hrest].
  cbn [Scenario.session] in Hs. cbn [forallb].
  destruct (answered rd) eqn:Hans.
  - assert (Hok : round_ok rd = true) by (unfold round_ok; by rewrite Hrd).
    destruct (round_effect rd c Hc Hok) as (c1 & data & Hsend & Hc1 & _).
    unfold mbind at 1 in Hs. rewrite Hsend in Hs. unfold mbind at 1 in Hs.
    destruct (session script c1) as [c2 [rs'|e|]] eqn:Hsess;
      [|discriminate|discriminate].
    simpl. by apply (IH c1 c2 rs').
  - exfalso. unfold mbind at 1 in Hs.
    pose proof (round_unanswered rd c Hc Hrd Hans) as Hno.
    destruct (_send_command (cmd rd) (map Recv (chunks rd)) c)
      as [c1 [r|e|]]; [by eapply Hno | discriminate | discriminate].
Qed.

Lemma forallb_round_ok script :
  forallb wire_ok script = true -> forallb answered script = true ->
  forallb round_ok script = true.
Proof.
  rewrite !forallb_forall. intros Hw Ha rd Hrd. unfold round_ok.
  by rewrite (Hw rd Hrd), (Ha rd Hrd).
Qed.

(** C1.  A caller issues N commands strictly one after the other: each
    command is sent and its response is taken from the queue before the
    next command is sent.
    (1) The queue is first in, first out: whenever the N calls return,
    the lines that the reader enqueued from the whole of the stream are
    the N values returned, in this order, followed by what is left in
    the queue, however the stream is cut into chunks of whole
    characters.
    (2) When the server answers each command with one line (and may push
    notifications or empty lines before it), the K-th value returned is
    the line answered to the K-th command sent (stripped), for every K:
    a response is never handed to another command.  The N calls do
    return, and the connection is ready again, when every command can be
    encoded and every answer is a line the reader takes for a response
    (not empty, not beginning with [Message]).  N may be 0. *)
Theorem serialized_commands_get_their_responses script c :
  ready c ->
  (forallb decodable script = true ->
   forall c' rs,
     session script c = (c', Ok rs) ->
     flat_map enqueued (frame (flat_map received script)).1
     = rs ++ response_queue c')
  /\ (forallb wire_ok script = true ->
      (forall c' rs,
          session script c = (c', Ok rs) ->
          length rs = length script
          /\ forall k rd, script !! k = Some rd ->
               rs !! k = Some (strip (reply rd))
               /\ sent c' !! (length (sent c) + k)%nat
                  = Some (octets (cmd rd ++ [NL])))
      /\ (forallb answered script = true ->
          exists c' rs, session script c = (c', Ok rs) /\ ready c')).
Proof.
  intros Hc. split.
  { intros Hdec c' rs Hs. destruct Hc as (Hsock & Hrun & Ht & Hq).
    pose proof (session_queue_order script c [] c' rs Hsock Hrun Ht
                  (not_elem_of_nil _) Hdec Hs) as Hfifo.
    by rewrite Hq in Hfifo. }
  intros Hwire.
  assert (Hlive : forallb answered script = true ->
            exists c', session script c
                       = (c', Ok (map (fun rd => strip (reply rd)) script))
                       /\ ready c'
                       /\ sent c' = sent c
                          ++ map (fun rd => octets (cmd rd ++ [NL])) script).
  { intros Hans. apply session_fifo; [done|]. by apply forallb_round_ok. }
  split.
  - intros c' rs Hs.
    destruct (Hlive (session_returns_answered _ _ _ _ Hc Hwire Hs))
      as (c2 & Hs2 & _ & Hsent).
    rewrite Hs in Hs2. injection Hs2 as <- ->.
    split; [by rewrite length_map|].
    intros k rd Hk. split.
    + by rewrite list_lookup_fmap, Hk.
    + rewrite Hsent, lookup_app_r by lia.
      replace (length (sent c) + k - length (sent c))%nat with k by lia.
      by rewrite list_lookup_fmap, Hk.
  - intros Hans. destruct (Hlive Hans) as (c' & Hs & Hc' & _). eauto.
Qed.

(** C4 (as amended).  Outside the state Connected a command is not sent
    and no response is awaited: the call raises what the codec or the
    socket raises, UnicodeEncodeError for a command line that cannot be
    encoded, otherwise the OSError of [send] on a closed socket (EBADF)
    or on a socket that was never connected; the client is unchanged. *)
Theorem send_outside_connected_raises_oserror c command arrivals :
  sock c <> Connected ->
  _send_command command arrivals c
  = (c, Raise (match utf8_encode (command ++ [NL]) with
               | None => UnicodeEncodeError
               | Some _ =>
                   OSError (match sock c with
                            | Closed => EBADF
                            | _ => errno_unconnected
                            end)
               end)).
Proof.
  intros Hs. unfold_send.
  destruct (utf8_encode (command ++ [NL])); [|done].
  simpl. by destruct (sock c).
Qed.

(** C2 (as amended).  [close] never raises, also on a connection that is
    closed already, where it changes nothing.  It puts nothing into the
    response queue and wakes nobody, and no failure is ever delivered to
    a caller that waits on the queue: [get] returns a line or keeps
    waiting.  After [close] the reader, which is inside [recv], takes at
    most the one turn of that call and then leaves its loop.  So a caller
    that waits on the empty queue is resumed only by a response line in
    the chunk that the reader was waiting for; when that turn enqueues
    nothing, as at the end of the stream or on an error of [recv], the
    caller stays suspended for good, whatever arrives later. *)
Theorem close_leaves_waiter_suspended c :
  (close c).2 = Ok tt
  /\ close (close c).1 = ((close c).1, Ok tt)
  /\ response_queue (close c).1 = response_queue c
  /\ (forall arrivals e,
        (queue_get (_read_responses arrivals (close c).1)).2 <> Raise e)
  /\ (forall r rs,
        _read_responses (r :: rs) (close c).1 = reader_step (close c).1 r
        /\ forall b, _read_thread (reader_step (close c).1 r) <> Reading b)
  /\ (response_queue c = [] ->
      queue_get (close c).1 = ((close c).1, Block)
      /\ (forall r rs,
            response_queue (reader_step (close c).1 r) = [] ->
            (queue_get (_read_responses (r :: rs) (close c).1)).2 = Block)
      /\ (forall rs,
            (queue_get (_read_responses (Recv [] :: rs) (close c).1)).2
            = Block)
      /\ (forall e rs,
            (queue_get
               (_read_responses (RecvError e :: rs) (close c).1)).2
            = Block)).
Proof.
  assert (Hlast : forall r rs,
            _read_responses (r :: rs) (close c).1 = reader_step (close c).1 r
            /\ forall b,
                 _read_thread (reader_step (close c).1 r) <> Reading b).
  { intros r rs. by apply reader_last_turn. }
  assert (Hblock : forall c0, response_queue c0 = [] ->
                              (queue_get c0).2 = Block).
  { intros c0 H0. unfold queue_get. by rewrite H0. }
  split_and!; [done | done | done | | exact Hlast |].
  - intros arrivals e. unfold queue_get.
    by destruct (response_queue (_read_responses arrivals (close c).1)).
  - intros Hq. split_and!.
    + unfold queue_get. simpl. by rewrite Hq.
    + intros r rs Hr. rewrite (proj1 (Hlast r rs)). by apply Hblock.
    + intros rs. rewrite (proj1 (Hlast (Recv []) rs)). apply Hblock.
      unfold DushyRedisClient.reader_step. simpl.
      by destruct (_read_thread c).
    + intros e rs. rewrite (proj1 (Hlast (RecvError e) rs)). apply Hblock.
      unfold DushyRedisClient.reader_step. simpl.
      by destruct (_read_thread c).
Qed.

(** *** Claims on the framer and the classifier *)

(** C3 (as amended).  A framed line that is not empty is taken as a push
    notification if and only if it begins with the seven characters
    [Message] (case-sensitive, no space required after them); such a
    line never reaches the response queue, whatever follows the prefix,
    and the loop goes on.  Every other line that is not empty is put,
    stripped, into the response queue. *)
Theorem classifier_tests_prefix_only line c :
  line <> [] ->
  (is_push line = true <-> exists rest, line = lit "Message" ++ rest)
  /\ (is_push line = true ->
        response_queue (process_line line c).1 = response_queue c
        /\ (process_line line c).2 = Ok tt)
  /\ (is_push line = false ->
        process_line line c
        = (set_response_queue (response_queue c ++ [strip line]) c, Ok tt)).
Proof.
  intros Hne. split_and!.
  - apply startswith_prefix.
  - intros Hp. destruct (process_line_effect line c) as (Hr&_&_&_&_&_&Hq).
    split; [|done]. rewrite Hq. unfold enqueued.
    rewrite (bool_decide_eq_false_2 _ Hne), Hp. apply app_nil_r.
  - intros Hp. unfold DushyRedisClient.process_line.
    rewrite (bool_decide_eq_false_2 _ Hne). unfold is_push in Hp.
    by rewrite Hp.
Qed.

(** C7 (as amended).  An empty framed line is dropped: nothing is
    delivered and the client is unchanged.  A line that is not empty and
    does not begin with [Message] is put into the response queue
    stripped of the white space at both of its ends, leading as well as
    trailing, and otherwise verbatim. *)
Theorem plain_line_is_stripped_at_both_ends line c :
  line <> [] -> is_push line = false ->
  process_line [] c = (c, Ok tt)
  /\ process_line line c
     = (set_response_queue (response_queue c ++ [strip line]) c, Ok tt)
  /\ exists l r,
       line = l ++ strip line ++ r
       /\ forallb isspace l = true /\ forallb isspace r = true
       /\ (forall x t, strip line = x :: t -> isspace x = false)
       /\ (forall t x, strip line = t ++ [x] -> isspace x = false).
Proof.
  intros Hne Hp. split_and!; [done | | apply strip_spec].
  unfold DushyRedisClient.process_line.
  rewrite (bool_decide_eq_false_2 _ Hne). unfold is_push in Hp.
  by rewrite Hp.
Qed.

(** *** Claims on the dispatcher and the registry *)

Lemma loop_content_idem ty v w :
  loop_content ty v = Ok w -> loop_content ty w = Ok w.
Proof.
  unfold loop_content. destruct (eq_int ty 2).
  - apply to_bytes_idem.
  - by intros [= ->].
Qed.

Lemma for_callbacks_content cbs ty v w c :
  loop_content ty v = Ok w ->
  for_callbacks cbs ty v c = for_callbacks cbs ty w c.
Proof.
  intros Hv. destruct cbs as [|cb cbs]; [done|]. simpl.
  unfold mbind at 1 3, lift. by rewrite Hv, (loop_content_idem _ _ _ Hv).
Qed.

Lemma for_callbacks_quiet pre rest ty v : forall c,
  loop_content ty v = Ok v ->
  Forall (fun cb => invoke cb v = None) pre ->
  for_callbacks (pre ++ rest) ty v c
  = for_callbacks rest ty v
      (set_calls (calls c ++ map (fun cb => (cb, v)) pre) c).
Proof.
  induction pre as [|cb pre IH]; intros c Hv Hq.
  - simpl. rewrite app_nil_r. by destruct c.
  - inversion Hq as [|? ? Hcb Hpre]; subst. simpl.
    unfold mbind, lift, DushyRedisClient.call. rewrite Hv, Hcb.
    rewrite IH by done. simpl. by rewrite <- app_assoc.
Qed.

Lemma split_notification channel json_str :
  SP ∉ channel ->
  split SP 2 (notification_line channel json_str)
  = [lit "Message"; channel; json_str].
Proof.
  intros Hch. unfold notification_line.
  change (lit "Message " ++ channel ++ [SP] ++ json_str)
    with (lit "Message" ++ SP :: (channel ++ SP :: json_str)).
  cbn [split].
  rewrite partition_app by (apply (bool_decide_unpack _); vm_compute; exact I).
  by rewrite partition_app.
Qed.

Lemma process_notification channel json_str ty content cbs c :
  notification channel json_str ty content ->
  subscriptions c !! channel = Some cbs ->
  process_line (notification_line channel json_str) c
  = try_except (for_callbacks cbs ty (PJson content))
      (fun e => print (ErrorProcessingMessage e)) c.
Proof.
  intros (Hch & message & Hload & Hcontent & Htype) Hsub.
  unfold DushyRedisClient.process_line.
  change (bool_decide (notification_line channel json_str = [])) with false.
  change (startswith (notification_line channel json_str) (lit "Message"))
    with true.
  unfold DushyRedisClient.handle_message, try_except,
    DushyRedisClient.dispatch.
  rewrite (split_notification _ _ Hch), Hload, Hsub.
  unfold mbind, lift. by rewrite Hcontent, Htype.
Qed.

Lemma notification_all_return channel json_str ty content cbs v c :
  notification channel json_str ty content ->
  subscriptions c !! channel = Some cbs ->
  loop_content ty (PJson content) = Ok v ->
  Forall (fun cb => invoke cb v = None) cbs ->
  process_line (notification_line channel json_str) c
  = (set_calls (calls c ++ map (fun cb => (cb, v)) cbs) c, Ok tt).
Proof.
  intros Hn Hsub Hv Hq.
  rewrite (process_notification _ _ _ _ _ _ Hn Hsub). unfold try_except.
  rewrite (for_callbacks_content _ _ _ _ _ Hv).
  rewrite <- (app_nil_r cbs) at 1.
  rewrite for_callbacks_quiet by eauto using loop_content_idem.
  reflexivity.
Qed.

Lemma notification_one_raises channel json_str ty content pre cb post v e c :
  notification channel json_str ty content ->
  subscriptions c !! channel = Some (pre ++ cb :: post) ->
  loop_content ty (PJson content) = Ok v ->
  Forall (fun p => invoke p v = None) pre ->
  invoke cb v = Some e ->
  process_line (notification_line channel json_str) c
  = (set_stdout (stdout c ++ [ErrorProcessingMessage e])
       (set_calls (calls c ++ map (fun p => (p, v)) (pre ++ [cb])) c),
     Ok tt).
Proof.
  intros Hn Hsub Hv Hq Hcb.
  rewrite (process_notification _ _ _ _ _ _ Hn Hsub). unfold try_except.
  rewrite (for_callbacks_content _ _ _ _ _ Hv).
  pose proof (loop_content_idem _ _ _ Hv) as Hv'.
  rewrite for_callbacks_quiet by done.
  simpl. unfold mbind, lift, DushyRedisClient.call. rewrite Hv', Hcb.
  simpl. by rewrite map_app, app_assoc.
Qed.

Lemma called_cases cbs v :
  (Forall (fun cb => invoke cb v = None) cbs /\ called cbs v = cbs)
  \/ exists pre cb post e,
       cbs = pre ++ cb :: post
       /\ Forall (fun p => invoke p v = None) pre
       /\ invoke cb v = Some e /\ called cbs v = pre ++ [cb].
Proof.
  induction cbs as [|cb cbs IH]; [left; by split|].
  simpl. destruct (invoke cb v) as [e|] eqn:Hcb.
  - right. exists [], cb, cbs, e. by split_and!.
  - destruct IH as [[Hq ->]|(pre & cb' & post & e & -> & Hq & Hcb' & ->)].
    + left. split; [by constructor | done].
    + right. exists (cb :: pre), cb', post, e.
      split_and!; [done | by constructor | done | done].
Qed.


(** C5 (as amended).  When a callback of the channel raises, every
    callback registered before it has been invoked, the failure is
    printed, the callbacks registered after it are not invoked for that
    message, and the reader loop goes on with the next line. *)
Theorem raising_callback_ends_the_dispatch
        channel json_str ty content pre cb post v e c :
  notification channel json_str ty content ->
  subscriptions c !! channel = Some (pre ++ cb :: post) ->
  loop_content ty (PJson content) = Ok v ->
  Forall (fun p => invoke p v = None) pre ->
  invoke cb v = Some e ->
  process_line (notification_line channel json_str) c
  = (set_stdout (stdout c ++ [ErrorProcessingMessage e])
       (set_calls (calls c ++ map (fun p => (p, v)) (pre ++ [cb])) c),
     Ok tt).
Proof. apply notification_one_raises. Qed.

(** *** What the dispatcher adds to the record *)

Lemma for_callbacks_calls cbs ty : forall v c,
  exists k,
    calls (for_callbacks cbs ty v c).1 = calls c ++ k
    /\ Forall (fun p => p.1 ∈ cbs) k
    /\ stdout (for_callbacks cbs ty v c).1 = stdout c.
Proof.
  induction cbs as [|cb cbs IH]; intros v c; simpl.
  - exists []. by rewrite app_nil_r.
  - unfold mbind, lift.
    destruct (loop_content ty v) as [v'|e|]; simpl;
      [|exists []; by rewrite app_nil_r..].
    unfold DushyRedisClient.call. destruct (invoke cb v') as [e|]; simpl.
    + exists [(cb, v')]. split_and!; [done | | done].
      constructor; [set_solver | constructor].
    + destruct (IH v' (set_calls (calls c ++ [(cb, v')]) c))
        as (k & Hk & Hin & Hout).
      exists ((cb, v') :: k). rewrite Hk, Hout. simpl.
      split_and!; [by rewrite <- app_assoc | | done].
      constructor; [set_solver|].
      eapply Forall_impl; [exact Hin|]. intros p Hp. set_solver.
Qed.

Lemma process_line_logs line c :
  exists kc ks,
    calls (process_line line c).1 = calls c ++ kc
    /\ stdout (process_line line c).1 = stdout c ++ ks
    /\ Forall (fun p => exists channel, p.1 ∈ registered c channel) kc.
Proof.
  assert (Hsame : forall c', calls c' = calls c -> stdout c' = stdout c ->
            exists kc ks,
              calls c' = calls c ++ kc /\ stdout c' = stdout c ++ ks
              /\ Forall (fun p => exists channel,
                                    p.1 ∈ registered c channel) kc).
  { intros c' -> ->. exists [], []. by rewrite !app_nil_r. }
  assert (Hprint : forall e,
            exists kc ks,
              calls c = calls c ++ kc
              /\ stdout c ++ [ErrorProcessingMessage e] = stdout c ++ ks
              /\ Forall (fun p => exists channel,
                                    p.1 ∈ registered c channel) kc).
  { intros e. exists [], [ErrorProcessingMessage e]. by rewrite app_nil_r. }
  unfold DushyRedisClient.process_line.
  destruct (bool_decide (line = [])); [by apply Hsame|].
  destruct (startswith line (lit "Message")); [|by apply Hsame].
  unfold DushyRedisClient.handle_message, try_except,
    DushyRedisClient.dispatch.
  destruct (split SP 2 line) as [|f0 [|channel [|json_str [|? ?]]]];
    simpl; try apply Hprint.
  destruct (json_loads json_str) as [message|]; simpl; [|apply Hprint].
  destruct (subscriptions c !! channel) as [cbs|] eqn:Hsub;
    [|by apply Hsame].
  unfold mbind, lift.
  destruct (subscript message (lit "Content")) as [content|e|]; simpl;
    [|apply Hprint|by apply Hsame].
  destruct (subscript message (lit "Type")) as [ty|e|]; simpl;
    [|apply Hprint|by apply Hsame].
  destruct (for_callbacks_calls cbs ty (PJson content) c)
    as (k & Hk & Hin & Hout).
  assert (Hreg : Forall (fun p => exists channel,
                                    p.1 ∈ registered c channel) k).
  { eapply Forall_impl; [exact Hin|]. intros p Hp. exists channel.
    unfold registered. by rewrite Hsub. }
  destruct (for_callbacks cbs ty (PJson content) c) as [c' [[]|e|]];
    simpl in *.
  - exists k, []. by rewrite app_nil_r.
  - exists k, [ErrorProcessingMessage e]. by rewrite Hout.
  - exists k, []. by rewrite app_nil_r.
Qed.

Lemma process_lines_logs ls : forall c,
  exists kc ks,
    calls (process_lines ls c).1 = calls c ++ kc
    /\ stdout (process_lines ls c).1 = stdout c ++ ks
    /\ Forall (fun p => exists channel, p.1 ∈ registered c channel) kc.
Proof.
  induction ls as [|l ls IH]; intros c; simpl.
  - exists [], []. by rewrite !app_nil_r.
  - unfold mbind.
    destruct (process_line_effect l c)
      as (Hr & _ & _ & Hsub & _).
    destruct (process_line_logs l c) as (kc & ks & Hc & Hs & Hreg).
    destruct (process_line l c) as [c1 r]. simpl in *. subst r.
    destruct (IH c1) as (kc' & ks' & Hc' & Hs' & Hreg').
    exists (kc ++ kc'), (ks ++ ks').
    rewrite Hc', Hs', Hc, Hs, !app_assoc. split_and!; [done | done |].
    apply Forall_app. split; [done|].
    eapply Forall_impl; [exact Hreg'|]. intros p [channel Hp].
    exists channel. unfold registered in *. by rewrite <- Hsub.
Qed.

Lemma reader_turn_keeps r b c :
  sock (reader_turn r b c).1 = sock c
  /\ sent (reader_turn r b c).1 = sent c
  /\ subscriptions (reader_turn r b c).1 = subscriptions c.
Proof.
  unfold DushyRedisClient.reader_turn, try_except.
  destruct r as [octets|e]; [|done].
  destruct (utf8_decode octets) as [[|x d]|]; [done | | done].
  unfold mbind. rewrite drain_frame. simpl.
  destruct (process_lines_effect (frame (b ++ x :: d)).1 c)
    as (_ & ? & ? & ? & _). done.
Qed.

Lemma reader_keeps rs : forall c,
  sock (_read_responses rs c) = sock c
  /\ sent (_read_responses rs c) = sent c
  /\ subscriptions (_read_responses rs c) = subscriptions c.
Proof.
  induction rs as [|r rs IH]; intros c; [done|].
  cbn [DushyRedisClient._read_responses fold_left].
  change (fold_left reader_step rs ?x) with (_read_responses rs x).
  destruct (IH (reader_step c r)) as (-> & -> & ->).
  unfold DushyRedisClient.reader_step.
  destruct (_read_thread c); [done | | done].
  destruct (reader_turn_keeps r buffer c) as (? & ? & ?).
  destruct (reader_turn r buffer c) as [c' [[b'|]|e|]]; try done.
  by destruct (running c').
Qed.

Lemma send_command_keeps command arrivals c :
  subscriptions (_send_command command arrivals c).1 = subscriptions c
  /\ (sock c = Connected ->
      forall data, utf8_encode (command ++ [NL]) = Some data ->
                   sent (_send_command command arrivals c).1
                   = sent c ++ [data]).
Proof.
  unfold_send.
  destruct (utf8_encode (command ++ [NL])) as [data|]; simpl;
    [|split; [done | intros _ ?; discriminate]].
  destruct (sock c) eqn:Hs; simpl; try (split; [done | discriminate]).
  set (c1 := set_sent (sent c ++ [data]) c).
  destruct (reader_keeps arrivals c1) as (_ & Hsent & Hsub).
  unfold queue_get.
  destruct (response_queue (_read_responses arrivals c1)); simpl;
    (split; [by rewrite Hsub | intros _ ? [= <-]; by rewrite Hsent]).
Qed.


(** *** The text of an integer *)

Lemma digits_value_step k rest acc :
  k < 10 ->
  digits_value acc ((48 + k) :: rest)
  = digits_value (acc * 10 + Z.of_N k) rest.
Proof.
  intros Hk. cbn [digits_value].
  destruct (N.leb_spec 48 (48 + k)); [|lia].
  destruct (N.leb_spec (48 + k) 57); [|lia].
  cbn [andb]. do 2 f_equal. lia.
Qed.

Lemma digits_value_acc d : forall acc,
  digits_value (Z.pos acc) (lit (NilEmpty.string_of_uint d))
  = Some (Z.pos (Pos.of_uint_acc d acc)).
Proof.
  induction d as [|d IH|d IH|d IH|d IH|d IH|d IH|d IH|d IH|d IH|d IH];
    intros acc; [done|..];
    cbn [NilEmpty.string_of_uint Pos.of_uint_acc];
    match goal with
    | |- digits_value _ (lit (String ?a ?s)) = _ =>
        change (lit (String a s))
          with ((48 + (N_of_ascii a - 48)) :: lit s)
    end;
    rewrite digits_value_step by (vm_compute; reflexivity);
    rewrite <- IH; f_equal; cbn; lia.
Qed.

Lemma digits_value_uint d :
  digits_value 0 (lit (NilEmpty.string_of_uint d))
  = Some (Z.of_N (Pos.of_uint d)).
Proof.
  induction d as [|d IH|d IH|d IH|d IH|d IH|d IH|d IH|d IH|d IH|d IH];
    [done|..];
    cbn [NilEmpty.string_of_uint Pos.of_uint];
    match goal with
    | |- digits_value _ (lit (String ?a ?s)) = _ =>
        change (lit (String a s))
          with ((48 + (N_of_ascii a - 48)) :: lit s)
    end;
    rewrite digits_value_step by (vm_compute; reflexivity);
    [exact IH | cbn; apply digits_value_acc ..].
Qed.

(** The text of a positive number is its numeral. *)
Lemma to_uint_numeral p :
  numeral (Z.pos p) (lit (NilEmpty.string_of_uint (Pos.to_uint p))).
Proof.
  pose proof (DecimalPos.Unsigned.to_uint_nonnil p) as Hnil.
  pose proof (DecimalPos.Unsigned.to_of (Pos.to_uint p)) as Hnorm.
  rewrite DecimalPos.Unsigned.of_to in Hnorm.
  change (N.to_uint (N.pos p)) with (Pos.to_uint p) in Hnorm.
  unfold numeral. split_and!.
  - destruct (Pos.to_uint p); done.
  - rewrite digits_value_uint. by rewrite DecimalPos.Unsigned.of_to.
  - destruct (Pos.to_uint p) as [|d|d|d|d|d|d|d|d|d|d] eqn:Hd; try done.
    intros _. exfalso.
    rewrite DecimalFacts.unorm_D0 in Hnorm.
    unfold Decimal.unorm in Hnorm.
    destruct (Decimal.nzhead d) eqn:Hz; try discriminate Hnorm.
    + injection Hnorm as Hnone. subst d.
      by apply (DecimalPos.Unsigned.to_uint_nonzero p).
    + eapply DecimalFacts.nzhead_nonzero. exact Hz.
Qed.

(** [str] of a value is its plain text. *)
Lemma format_plain value : plain_text value (format value).
Proof.
  destruct value as [v|n|[]| |r]; try done.
  unfold plain_text, format, str_of_int.
  destruct n as [|p|p].
  - by split_and!.
  - apply to_uint_numeral.
  - eexists. split; [reflexivity|]. apply to_uint_numeral.
Qed.

(** C10.  [set] sends the line [SET key "v"] for a string value [v],
    the quotes being the double quote, and [SET key text] for any other
    value, [text] being its plain text (for an integer its decimal
    numeral), and then returns whether the response taken from the
    queue equals [OK]; in a ready connection whose server answers the
    command with one line, the octets of that command line are what is
    sent and the result is [true] exactly when the answer, stripped, is
    [OK]. *)
Theorem set_quotes_strings_and_reports_ok key value :
  exists text,
    plain_text value text
    /\ (forall arrivals c,
          set key value arrivals c
          = (response <- _send_command (set_line key value text) arrivals ;;
             ret (bool_decide (response = lit "OK"))) c)
    /\ (forall rd c,
          ready c -> round_ok rd = true ->
          cmd rd = set_line key value text ->
          exists c' data,
            set key value (map Recv (chunks rd)) c
            = (c', Ok (bool_decide (strip (reply rd) = lit "OK")))
            /\ utf8_encode (set_line key value text ++ [NL]) = Some data
            /\ sent c' = sent c ++ [data]).
Proof.
  exists (format value).
  assert (Hset : forall arrivals c,
     set key value arrivals c
     = (response <- _send_command (set_line key value (format value))
                      arrivals ;;
        ret (bool_decide (response = lit "OK"))) c).
  { intros arrivals c. unfold DushyRedisClient.set, set_line.
    by destruct value. }
  split_and!; [apply format_plain | exact Hset |].
  intros rd c Hc Hok Hcmd.
  destruct (round_effect rd c Hc Hok) as (c' & data & Hsend & _ & Hd & Hs & _).
  exists c', data. rewrite Hcmd in Hsend, Hd.
  split_and!; [|done|done].
  rewrite Hset. unfold mbind. by rewrite Hsend.
Qed.

(** C6, at the failing input.  The three octets of the line "é" followed
    by its newline, received as one chunk, give one framed line, which
    is delivered.  The same octets received as two chunks cut inside the
    character give no line at all: the first chunk does not decode, the
    reader prints the error and leaves its loop, and the rest of the
    stream is never read. *)
Theorem split_inside_character_stops_reader :
  concat [[xc3]; [xa9; x0a]] = [xc3; xa9; x0a]
  /\ _read_responses [Recv [xc3; xa9; x0a]] connected
     = set_response_queue [[233]] connected
  /\ _read_responses [Recv [xc3]; Recv [xa9; x0a]] connected
     = set_stdout [ReadError UnicodeDecodeError]
         (set_read_thread Finished connected).
Proof. split_and!; reflexivity. Qed.

End Facts.

(** *** The claims at sample inputs *)

Lemma sample_notification :
  Scenario.notification sample_loads (lit "news") hi_envelope
                        (JInt 1) (JStr (lit "hi")).
Proof.
  split; [apply (bool_decide_unpack _); vm_compute; exact I|].
  eexists. split_and!; reflexivity.
Defined.

Lemma sample_binary_notification :
  Scenario.notification sample_loads (lit "news") bin_envelope (JInt 2)
                        (JArr [JInt 66; JInt 105; JInt 110]).
Proof.
  split; [apply (bool_decide_unpack _); vm_compute; exact I|].
  eexists. split_and!; reflexivity.
Defined.

Lemma serialized_commands_witness :
  ready connected
  /\ forallb decodable sample_script = true
  /\ forallb wire_ok sample_script = true
  /\ forallb answered sample_script = true
  /\ exists c' rs,
       Scenario.session sample_loads sample_invoke EPIPE sample_script
                        connected = (c', Ok rs)
       /\ rs !! 0%nat = Some (lit "OK") /\ rs !! 1%nat = Some (lit "1")
       /\ sent c' !! 0%nat = Some (octets (lit "SET k 1" ++ [NL]))
       /\ sent c' !! 1%nat = Some (octets (lit "GET k" ++ [NL]))
       /\ length rs = 2%nat /\ ready c'
       /\ [lit "OK"; lit "1"] = rs ++ response_queue c'.
Proof.
  assert (Hc : ready connected) by by repeat split.
  assert (Hd : forallb decodable sample_script = true)
    by (vm_compute; reflexivity).
  assert (Hw : forallb wire_ok sample_script = true)
    by (vm_compute; reflexivity).
  assert (Ha : forallb answered sample_script = true)
    by (vm_compute; reflexivity).
  split_and!; [exact Hc | exact Hd | exact Hw | exact Ha |].
  destruct (serialized_commands_get_their_responses
              sample_loads sample_invoke EPIPE sample_script connected Hc)
    as [Hfifo Hround].
  destruct (Hround Hw) as [Hsafe Hlive].
  destruct (Hlive Ha) as (c' & rs & Hs & Hc').
  destruct (Hsafe c' rs Hs) as [Hlen Hk].
  exists c', rs.
  split_and!; [exact Hs | | | | | exact Hlen | exact Hc' |].
  - exact (proj1 (Hk 0%nat _ eq_refl)).
  - exact (proj1 (Hk 1%nat _ eq_refl)).
  - exact (proj2 (Hk 0%nat _ eq_refl)).
  - exact (proj2 (Hk 1%nat _ eq_refl)).
  - exact (Hfifo Hd c' rs Hs).
Defined.

Lemma send_outside_connected_witness :
  sock (close connected).1 <> Connected
  /\ DushyRedisClient._send_command sample_loads sample_invoke EPIPE
       (lit "GET k") [] (close connected).1
     = ((close connected).1, Raise (OSError EBADF)).
Proof.
  split; [discriminate|].
  apply (send_outside_connected_raises_oserror
           sample_loads sample_invoke EPIPE (close connected).1
           (lit "GET k") []).
  discriminate.
Defined.

(** C4, counterexample.  After [close] the call raises the OSError of a
    closed socket, "bad file descriptor", not a not-connected error. *)
Lemma send_after_close_counterexample :
  (DushyRedisClient._send_command sample_loads sample_invoke EPIPE
     (lit "GET k") [] (close connected).1).2 = Raise (OSError EBADF)
  /\ ~ not_connected_error (OSError EBADF).
Proof. split; [reflexivity | discriminate]. Qed.

(** The server closes the stream after [close], and then sends [OK]
    all the same: the caller that waits stays suspended.  Had [OK]
    arrived in the chunk that the reader was waiting for, the caller
    would have been resumed with it. *)
Lemma close_leaves_waiter_witness :
  response_queue connected = []
  /\ (queue_get (DushyRedisClient._read_responses sample_loads sample_invoke
                   [Recv []; Recv (octets (lit "OK" ++ [NL]))]
                   (close connected).1)).2
     = Block
  /\ (queue_get (DushyRedisClient._read_responses sample_loads sample_invoke
                   [Recv (octets (lit "OK" ++ [NL]))]
                   (close connected).1)).2
     = Ok (lit "OK").
Proof.
  split; [reflexivity|]. split; [|reflexivity].
  destruct (close_leaves_waiter_suspended sample_loads sample_invoke
              connected) as (_ & _ & _ & _ & _ & Hwait).
  destruct (Hwait eq_refl) as (_ & _ & Heof & _).
  exact (Heof [Recv (octets (lit "OK" ++ [NL]))]).
Defined.

(** C2, counterexample.  A caller waits on the empty queue of a
    connected client.  After [close] its [get] is still suspended, and
    it stays so when the stream then ends or [recv] fails, whatever
    arrives later; no failure of any kind is ever delivered to it. *)
Lemma close_wakes_no_waiter_counterexample :
  response_queue connected = []
  /\ (queue_get (close connected).1).2 = Block
  /\ (forall rs,
        (queue_get (DushyRedisClient._read_responses sample_loads
                      sample_invoke (Recv [] :: rs) (close connected).1)).2
        = Block)
  /\ (forall e rs,
        (queue_get (DushyRedisClient._read_responses sample_loads
                      sample_invoke (RecvError e :: rs)
                      (close connected).1)).2
        = Block)
  /\ ~ (exists arrivals e,
          (queue_get (DushyRedisClient._read_responses sample_loads
                        sample_invoke arrivals (close connected).1)).2
          = Raise e).
Proof.
  split_and!; [reflexivity | reflexivity | | |].
  - intros rs.
    rewrite (proj1 (reader_last_turn sample_loads sample_invoke
                      (Recv []) rs (close connected).1 eq_refl)).
    reflexivity.
  - intros e rs.
    rewrite (proj1 (reader_last_turn sample_loads sample_invoke
                      (RecvError e) rs (close connected).1 eq_refl)).
    reflexivity.
  - intros (arrivals & e & He). unfold queue_get in He.
    by destruct (response_queue
                   (DushyRedisClient._read_responses sample_loads
                      sample_invoke arrivals (close connected).1)).
Qed.

Lemma classifier_witness :
  lit "Messages 5" <> []
  /\ (is_push (lit "Messages 5") = true
      <-> exists rest, lit "Messages 5" = lit "Message" ++ rest)
  /\ (is_push (lit "Messages 5") = true ->
        response_queue (DushyRedisClient.process_line sample_loads
                          sample_invoke (lit "Messages 5") connected).1
        = response_queue connected
        /\ (DushyRedisClient.process_line sample_loads sample_invoke
              (lit "Messages 5") connected).2 = Ok tt)
  /\ (is_push (lit "Messages 5") = false ->
        DushyRedisClient.process_line sample_loads sample_invoke
          (lit "Messages 5") connected
        = (set_response_queue
             (response_queue connected ++ [strip (lit "Messages 5")])
             connected, Ok tt)).
Proof.
  split; [discriminate|].
  apply (classifier_tests_prefix_only sample_loads sample_invoke
           (lit "Messages 5") connected).
  discriminate.
Defined.

(** C3, counterexample.  The line [Messages 5] does not begin with the
    token [Message ] (no space follows the word), so the claim routes it
    to the response queue; the reader takes it for a notification and
    the queue stays empty. *)
Lemma classifier_counterexample :
  ~ (exists rest, lit "Messages 5" = lit "Message " ++ rest)
  /\ response_queue (DushyRedisClient.process_line sample_loads
                       sample_invoke (lit "Messages 5") connected).1 = []
  /\ stdout (DushyRedisClient.process_line sample_loads
               sample_invoke (lit "Messages 5") connected).1
     = [ErrorProcessingMessage ValueError].
Proof.
  split_and!; [|reflexivity|reflexivity].
  intros [rest Hrest]. vm_compute in Hrest. discriminate Hrest.
Qed.

Lemma plain_line_witness :
  lit " OK " <> [] /\ is_push (lit " OK ") = false
  /\ DushyRedisClient.process_line sample_loads sample_invoke []
       connected = (connected, Ok tt)
  /\ DushyRedisClient.process_line sample_loads sample_invoke (lit " OK ")
       connected
     = (set_response_queue
          (response_queue connected ++ [strip (lit " OK ")]) connected,
        Ok tt)
  /\ exists l r,
       lit " OK " = l ++ strip (lit " OK ") ++ r
       /\ forallb isspace l = true /\ forallb isspace r = true
       /\ (forall x t, strip (lit " OK ") = x :: t -> isspace x = false)
       /\ (forall t x, strip (lit " OK ") = t ++ [x] -> isspace x = false).
Proof.
  split; [discriminate|]. split; [reflexivity|].
  apply (plain_line_is_stripped_at_both_ends sample_loads sample_invoke
           (lit " OK ") connected).
  - discriminate.
  - reflexivity.
Defined.

(** C7, counterexample.  The line [ OK] has leading white space and no
    trailing white space; trimmed of trailing white space only it is
    unchanged, but what reaches the queue is [OK]. *)
Lemma leading_space_counterexample :
  rstrip (lit " OK") = lit " OK"
  /\ response_queue (DushyRedisClient.process_line sample_loads
                       sample_invoke (lit " OK") connected).1
     = [lit "OK"]
  /\ lit "OK" <> rstrip (lit " OK").
Proof. split_and!; [reflexivity | reflexivity | discriminate]. Qed.

Lemma raising_callback_witness :
  DushyRedisClient.process_line sample_loads sample_invoke
    (notification_line (lit "news") hi_envelope) (with_callbacks [1; 0; 2]%nat)
  = (set_stdout [ErrorProcessingMessage (UserError 0)]
       (set_calls [(1%nat, PJson (JStr (lit "hi")));
                   (0%nat, PJson (JStr (lit "hi")))]
          (with_callbacks [1; 0; 2]%nat)),
     Ok tt).
Proof.
  apply (raising_callback_ends_the_dispatch sample_loads sample_invoke
           (lit "news") hi_envelope (JInt 1) (JStr (lit "hi"))
           [1%nat] 0%nat [2%nat] (PJson (JStr (lit "hi"))) (UserError 0)
           (with_callbacks [1; 0; 2]%nat)).
  - exact sample_notification.
  - reflexivity.
  - reflexivity.
  - repeat constructor.
  - reflexivity.
Defined.

(** C5, counterexample.  Callbacks 0 and 1 are registered on the
    channel, in this order, and callback 0 raises: callback 1 is not
    invoked for the message. *)
Lemma remaining_callbacks_counterexample :
  subscriptions (with_callbacks [0; 1]%nat) !! lit "news" = Some [0; 1]%nat
  /\ sample_invoke 0%nat (PJson (JStr (lit "hi"))) = Some (UserError 0)
  /\ calls (DushyRedisClient.process_line sample_loads sample_invoke
              (notification_line (lit "news") hi_envelope)
              (with_callbacks [0; 1]%nat)).1
     = [(0%nat, PJson (JStr (lit "hi")))]
  /\ ~ (exists v,
          (1%nat, v) ∈ calls (DushyRedisClient.process_line sample_loads
                                sample_invoke
                                (notification_line (lit "news") hi_envelope)
                                (with_callbacks [0; 1]%nat)).1).
Proof.
  split_and!; [reflexivity | reflexivity | reflexivity |].
  intros [v Hv]. vm_compute in Hv.
  apply list_elem_of_singleton in Hv. discriminate Hv.
Qed.





Lemma set_witness :
  ready connected /\ round_ok set_round = true
  /\ (exists c',
        DushyRedisClient.set sample_loads sample_invoke EPIPE (lit "k")
          (OStr (lit "v")) (map Recv (chunks set_round)) connected
        = (c', Ok true)
        /\ sent c' = [[x53; x45; x54; x20; x6b; x20; x22; x76; x22; x0a]])
  /\ sent (DushyRedisClient.set sample_loads sample_invoke EPIPE (lit "k")
             (OInt 42) [] connected).1
     = [[x53; x45; x54; x20; x6b; x20; x34; x32; x0a]]
  /\ sent (DushyRedisClient.set sample_loads sample_invoke EPIPE (lit "k")
             (OInt (-7)) [] connected).1
     = [[x53; x45; x54; x20; x6b; x20; x2d; x37; x0a]].
Proof.
  split; [by repeat split|]. split; [vm_compute; reflexivity|].
  split; [|split; reflexivity].
  destruct (set_quotes_strings_and_reports_ok sample_loads sample_invoke
              EPIPE (lit "k") (OStr (lit "v")))
    as (text & Hplain & _ & Hround).
  simpl in Hplain. subst text.
  destruct (Hround set_round connected)
    as (c' & data & Hcall & Hdata & Hsent);
    [by repeat split | vm_compute; reflexivity | reflexivity |].
  exists c'. split; [exact Hcall|].
  vm_compute in Hdata. injection Hdata as <-. exact Hsent.
Defined.

End ClientFacts.

(* ================================================================== *)
(** ** Further properties of the client *)
(* ================================================================== *)

Module Extras.
Import Py DushyRedisClient Scenario Usage PyFacts ClientFacts.

(** Opens [_send_command] up to its first step that reads the state. *)
Ltac open_send :=
  unfold DushyRedisClient._send_command, mbind, encode,
    DushyRedisClient.socket_send.

Section Reader.

Variable json_loads : str -> option json.
Variable invoke : callback -> pyval -> option exn.
Variable errno_unconnected : errno.

Local Abbreviation process_line :=
  (DushyRedisClient.process_line json_loads invoke).
Local Abbreviation process_lines := (Scenario.process_lines json_loads invoke).
Local Abbreviation for_callbacks := (DushyRedisClient.for_callbacks invoke).
Local Abbreviation reader_step :=
  (DushyRedisClient.reader_step json_loads invoke).
Local Abbreviation _read_responses :=
  (DushyRedisClient._read_responses json_loads invoke).
Local Abbreviation _send_command :=
  (DushyRedisClient._send_command json_loads invoke errno_unconnected).

(** X1.  The state of the client after the reader has received a
    stream of octets does not depend on how the stream was cut into
    chunks, as long as no chunk is empty and every cut falls between two
    characters: the same lines are handled in the same order, the same
    responses are queued, the same callbacks are called and the same
    text is left in the buffer. *)
Theorem chunks_cut_between_characters_frame_alike
        chunks1 chunks2 ds1 ds2 c b :
  _read_thread c = Reading b -> running c = true -> NL ∉ b ->
  decode_chunks chunks1 = Some ds1 -> decode_chunks chunks2 = Some ds2 ->
  concat chunks1 = concat chunks2 ->
  _read_responses (map Recv chunks1) c = _read_responses (map Recv chunks2) c.
Proof. apply chunking_independent. Qed.

(** X2.  A turn of the reader on a chunk that decodes loses no text and
    splits no line: the buffer followed by the new text is the lines
    handed on, each followed by its newline, followed by the new buffer;
    no line and no buffer holds a newline; the lines are handled in
    order and the responses among them join the queue at its end. *)
Theorem reader_turn_conserves_the_text c b ch d :
  _read_thread c = Reading b -> running c = true ->
  utf8_decode ch = Some d -> d <> [] ->
  exists ls b',
    b ++ d = unlines ls ++ b'
    /\ Forall (fun l => NL ∉ l) ls /\ (NL ∉ b')
    /\ reader_step c (Recv ch)
       = set_read_thread (Reading b') (process_lines ls c).1
    /\ response_queue (reader_step c (Recv ch))
       = response_queue c ++ flat_map enqueued ls.
Proof.
  intros Ht Hr Hd Hne.
  exists (frame (b ++ d)).1, (frame (b ++ d)).2.
  destruct (frame_decompose (b ++ d)) as (Heq & Hls & Hb').
  rewrite (reader_step_chunk json_loads invoke c b ch d Ht Hr Hd Hne).
  destruct (process_lines_effect json_loads invoke (frame (b ++ d)).1 c)
    as (_ & _ & _ & _ & _ & _ & Hq).
  split_and!; done.
Qed.

Lemma finished_absorbs rs : forall c,
  _read_thread c = Finished -> _read_responses rs c = c.
Proof.
  induction rs as [|r rs IH]; intros c Hc; [done|].
  cbn [DushyRedisClient._read_responses fold_left].
  assert (Hstep : reader_step c r = c)
    by (unfold DushyRedisClient.reader_step; by rewrite Hc).
  rewrite Hstep. by apply IH.
Qed.

(** X3.  The reader leaves its loop for good at the end of the stream
    (an empty read), on an error of [recv], and on a chunk that does not
    decode.  At the end of the stream it prints nothing and the
    incomplete line left in its buffer is not delivered; in the two
    other cases it prints the error.  Whatever arrives afterwards is never read:
    the client stays as it is. *)
Theorem reader_leaves_its_loop_for_good c b rs :
  _read_thread c = Reading b -> running c = true ->
  _read_responses (Recv [] :: rs) c = set_read_thread Finished c
  /\ (forall e,
        _read_responses (RecvError e :: rs) c
        = set_read_thread Finished
            (set_stdout (stdout c ++ [ReadError (OSError e)]) c))
  /\ (forall ch,
        utf8_decode ch = None ->
        _read_responses (Recv ch :: rs) c
        = set_read_thread Finished
            (set_stdout (stdout c ++ [ReadError UnicodeDecodeError]) c)).
Proof.
  intros Ht Hr.
  assert (Hgo : forall r c',
            reader_step c r = c' -> _read_thread c' = Finished ->
            _read_responses (r :: rs) c = c').
  { intros r c' Hstep Hfin.
    cbn [DushyRedisClient._read_responses fold_left]. rewrite Hstep.
    by apply finished_absorbs. }
  split_and!.
  - apply Hgo; [|done]. unfold DushyRedisClient.reader_step.
    by rewrite Ht.
  - intros e. apply Hgo; [|done]. unfold DushyRedisClient.reader_step.
    by rewrite Ht.
  - intros ch Hch. apply Hgo; [|done].
    unfold DushyRedisClient.reader_step,
      DushyRedisClient.reader_turn, try_except.
    by rewrite Ht, Hch.
Qed.

(** *** What the reader adds to the record *)

(** One turn of the reader: the state of the connection and the
    registry are not touched, the queue and the logs grow at their end,
    only registered callbacks are called, and the buffer that is kept
    holds no newline. *)
Lemma reader_step_grows c r :
  sock (reader_step c r) = sock c
  /\ sent (reader_step c r) = sent c
  /\ subscriptions (reader_step c r) = subscriptions c
  /\ running (reader_step c r) = running c
  /\ (exists kq kc ks,
        response_queue (reader_step c r) = response_queue c ++ kq
        /\ calls (reader_step c r) = calls c ++ kc
        /\ stdout (reader_step c r) = stdout c ++ ks
        /\ Forall (fun p => exists channel, p.1 ∈ registered c channel) kc)
  /\ (forall b', _read_thread (reader_step c r) = Reading b' -> NL ∉ b')
  /\ (_read_thread (reader_step c r) = NotStarted <->
      _read_thread c = NotStarted)
  /\ (_read_thread c = NotStarted -> reader_step c r = c).
Proof.
  assert (Hnil : exists kq kc ks,
            response_queue c = response_queue c ++ kq
            /\ calls c = calls c ++ kc /\ stdout c = stdout c ++ ks
            /\ Forall (fun p => exists channel,
                                  p.1 ∈ registered c channel) kc).
  { exists [], [], []. by rewrite !app_nil_r. }
  assert (Hprint : forall p, exists kq kc ks,
            response_queue c = response_queue c ++ kq
            /\ calls c = calls c ++ kc /\ stdout c ++ [p] = stdout c ++ ks
            /\ Forall (fun p => exists channel,
                                  p.1 ∈ registered c channel) kc).
  { intros p. exists [], [], [p]. by rewrite !app_nil_r. }
  unfold DushyRedisClient.reader_step.
  destruct (_read_thread c) as [|b|] eqn:Ht.
  - split_and!; try done; try (by rewrite Ht);
      try (intros b'; by rewrite Ht).
  - unfold DushyRedisClient.reader_turn, try_except.
    destruct r as [octets|e]; simpl.
    2:{ split_and!; try done. }
    destruct (utf8_decode octets) as [[|x d]|] eqn:Hd; simpl.
    + split_and!; try done.
    + unfold mbind. rewrite (drain_frame json_loads invoke). simpl.
      destruct (process_lines_effect json_loads invoke
                  (frame (b ++ x :: d)).1 c) as (_&?&?&?&?&_&Hq).
      destruct (process_lines_logs json_loads invoke
                  (frame (b ++ x :: d)).1 c)
        as (kc & ks & Hc & Hs & Hreg).
      destruct (frame_decompose (b ++ x :: d)) as (_ & _ & Hb').
      destruct (running (process_lines (frame (b ++ x :: d)).1 c).1)
        eqn:Hrun;
        simpl; split_and!; try done; try congruence;
        try (by intros b' [= <-]);
        by exists (flat_map enqueued (frame (b ++ x :: d)).1), kc, ks.
    + split_and!; try done.
  - split_and!; try done; try (by rewrite Ht);
      try (intros b'; by rewrite Ht).
Qed.

Lemma reader_grows rs : forall c,
  sock (_read_responses rs c) = sock c
  /\ sent (_read_responses rs c) = sent c
  /\ subscriptions (_read_responses rs c) = subscriptions c
  /\ running (_read_responses rs c) = running c
  /\ (exists kq kc ks,
        response_queue (_read_responses rs c) = response_queue c ++ kq
        /\ calls (_read_responses rs c) = calls c ++ kc
        /\ stdout (_read_responses rs c) = stdout c ++ ks
        /\ Forall (fun p => exists channel, p.1 ∈ registered c channel) kc).
Proof.
  induction rs as [|r rs IH]; intros c.
  - split_and!; try done. exists [], [], []. by rewrite !app_nil_r.
  - cbn [DushyRedisClient._read_responses fold_left].
    change (fold_left reader_step rs ?x) with (_read_responses rs x).
    destruct (reader_step_grows c r)
      as (Hs & Hsent & Hsub & Hr & (kq & kc & ks & Hq & Hc & Ho & Hreg) & _).
    destruct (IH (reader_step c r))
      as (Hs' & Hsent' & Hsub' & Hr'
          & (kq' & kc' & ks' & Hq' & Hc' & Ho' & Hreg')).
    split_and!; try congruence.
    exists (kq ++ kq'), (kc ++ kc'), (ks ++ ks').
    rewrite Hq', Hc', Ho', Hq, Hc, Ho, !app_assoc.
    split_and!; try done. apply Forall_app. split; [done|].
    eapply Forall_impl; [exact Hreg'|]. intros p [channel Hp].
    exists channel. unfold registered in *. by rewrite <- Hsub.
Qed.

(** X4.  A response is returned for its place in the queue, not for the
    command: when a line is still in the queue as a command is issued on
    a connected socket, the call returns that older line, whatever the
    server answers to the command; the answers that arrive during the
    call stay in the queue for the calls that follow. *)
Theorem stale_response_is_returned_first c x q command data arrivals :
  sock c = Connected -> utf8_encode (command ++ [NL]) = Some data ->
  response_queue c = x :: q ->
  (_send_command command arrivals c).2 = Ok x
  /\ sent (_send_command command arrivals c).1 = sent c ++ [data]
  /\ exists arrived,
       response_queue
         (_read_responses arrivals (set_sent (sent c ++ [data]) c))
       = x :: q ++ arrived
       /\ response_queue (_send_command command arrivals c).1
          = q ++ arrived.
Proof.
  intros Hs Hdata Hq. open_send. rewrite Hdata. simpl. rewrite Hs.
  destruct (reader_grows arrivals (set_sent (sent c ++ [data]) c))
    as (_ & Hsent & _ & _ & (kq & _ & _ & Hq' & _)).
  simpl in Hq', Hsent. rewrite Hq in Hq'. simpl in Hq'.
  unfold queue_get. rewrite Hq'. simpl.
  split_and!; [done | done |]. by exists kq.
Qed.

(** X5.  When the reader has left its loop, a command issued on the
    connected socket is still sent, but no response can arrive for it:
    with an empty queue the caller stays suspended, whatever the server
    answers. *)
Theorem command_after_reader_stopped_is_never_answered
        c command data arrivals :
  sock c = Connected -> _read_thread c = Finished ->
  response_queue c = [] ->
  utf8_encode (command ++ [NL]) = Some data ->
  _send_command command arrivals c
  = (set_sent (sent c ++ [data]) c, Block).
Proof.
  intros Hs Ht Hq Hdata. open_send. rewrite Hdata. simpl. rewrite Hs.
  rewrite finished_absorbs by done. unfold queue_get. simpl.
  by rewrite Hq.
Qed.

(** *** Edge cases of the dispatcher *)

Local Abbreviation notification := (Scenario.notification json_loads).

Lemma process_push_line channel json_str c :
  SP ∉ channel ->
  process_line (notification_line channel json_str) c
  = try_except
      (match json_loads json_str with
       | None => raise JSONDecodeError
       | Some message =>
           fun c =>
             match subscriptions c !! channel with
             | Some cbs =>
                 (content <- lift (subscript message (lit "Content")) ;;
                  msg_type <- lift (subscript message (lit "Type")) ;;
                  for_callbacks cbs msg_type (PJson content)) c
             | None => (c, Ok tt)
             end
       end)
      (fun e => print (ErrorProcessingMessage e)) c.
Proof.
  intros Hch. unfold DushyRedisClient.process_line.
  change (bool_decide (notification_line channel json_str = [])) with false.
  change (startswith (notification_line channel json_str) (lit "Message"))
    with true.
  unfold DushyRedisClient.handle_message, try_except,
    DushyRedisClient.dispatch.
  by rewrite (split_notification _ _ Hch).
Qed.

(** X6.  The envelope of a notification is decoded before its channel
    is looked up, and its fields are read only for a channel that has
    an entry: a line whose JSON does not decode prints an error even
    when nobody subscribed to the channel; a line whose JSON decodes,
    for a channel without entry, changes nothing at all, whatever the
    document is; for a channel with an entry a document without
    [Content], or without [Type], prints the error and no callback is
    called.  In every case the loop goes on. *)
Theorem envelope_is_decoded_before_the_channel_is_looked_up
        channel json_str c :
  SP ∉ channel ->
  (json_loads json_str = None ->
   process_line (notification_line channel json_str) c
   = (set_stdout (stdout c ++ [ErrorProcessingMessage JSONDecodeError]) c,
      Ok tt))
  /\ (forall message,
        json_loads json_str = Some message ->
        subscriptions c !! channel = None ->
        process_line (notification_line channel json_str) c = (c, Ok tt))
  /\ (forall message cbs e,
        json_loads json_str = Some message ->
        subscriptions c !! channel = Some cbs ->
        subscript message (lit "Content") = Raise e ->
        process_line (notification_line channel json_str) c
        = (set_stdout (stdout c ++ [ErrorProcessingMessage e]) c, Ok tt))
  /\ (forall message cbs content e,
        json_loads json_str = Some message ->
        subscriptions c !! channel = Some cbs ->
        subscript message (lit "Content") = Ok content ->
        subscript message (lit "Type") = Raise e ->
        process_line (notification_line channel json_str) c
        = (set_stdout (stdout c ++ [ErrorProcessingMessage e]) c, Ok tt)).
Proof.
  intros Hch. rewrite (process_push_line _ _ _ Hch). unfold try_except.
  split_and!.
  - by intros ->.
  - by intros message -> ->.
  - intros message cbs e -> -> Hc. unfold mbind, lift. by rewrite Hc.
  - intros message cbs content e -> -> Hc Ht. unfold mbind, lift.
    by rewrite Hc, Ht.
Qed.

Lemma byte_items_fail xs :
  forallb byte_like xs = false ->
  byte_items xs = Raise TypeError \/ byte_items xs = Raise ValueError.
Proof.
  induction xs as [|x xs IH]; simpl; [done|].
  destruct (byte_like x) eqn:Hx; simpl.
  - intros Hxs. destruct (IH Hxs) as [H|H]; rewrite H.
    + left. destruct x; simpl in *; try done; by case_match.
    + right. destruct x; simpl in *; try done; by case_match.
  - intros _. destruct x; simpl in *; try (by left).
    + rewrite Hx. by right.
Qed.

(** X7.  The conversion of a binary message is all or nothing.  When
    Type equals 2 and the Content is a JSON array in which one element
    is neither a bool nor an integer between 0 and 255, no callback of
    the channel is called, not even with the elements that are in
    range: the TypeError or ValueError of [bytes] is printed and the
    loop goes on. *)
Theorem malformed_binary_message_reaches_no_callback
        channel json_str ty xs cb cbs c :
  notification channel json_str ty (JArr xs) ->
  subscriptions c !! channel = Some (cb :: cbs) ->
  eq_int ty 2 = true ->
  forallb byte_like xs = false ->
  exists e,
    (e = TypeError \/ e = ValueError)
    /\ process_line (notification_line channel json_str) c
       = (set_stdout (stdout c ++ [ErrorProcessingMessage e]) c, Ok tt).
Proof.
  intros Hn Hsub Hty Hxs.
  rewrite (process_notification json_loads invoke _ _ _ _ _ _ Hn Hsub).
  unfold try_except. simpl. unfold mbind, lift, loop_content.
  rewrite Hty. simpl.
  destruct (byte_items_fail xs Hxs) as [H|H]; rewrite H; simpl;
    eexists; (split; [|reflexivity]); auto.
Qed.

(** *** The registry *)

Local Abbreviation subscribe :=
  (DushyRedisClient.subscribe json_loads invoke errno_unconnected).

Lemma subscribe_state channel cb arrivals c :
  (subscribe channel cb arrivals c).1
  = (_send_command (lit "SUBSCRIBE " ++ channel) arrivals
       (register channel cb c)).1.
Proof.
  unfold DushyRedisClient.subscribe, mbind.
  change (set_subscriptions _ c) with (register channel cb c).
  by destruct (_send_command (lit "SUBSCRIBE " ++ channel) arrivals
                 (register channel cb c)) as [c' [r|e|]].
Qed.

Lemma registered_register channel cb c other :
  registered (register channel cb c) other
  = if bool_decide (other = channel) then registered c channel ++ [cb]
    else registered c other.
Proof.
  unfold registered, register. simpl. case_bool_decide as Ho.
  - subst other. rewrite lookup_alter_eq.
    destruct (subscriptions c !! channel) as [l|] eqn:Hl; simpl.
    + by rewrite Hl.
    + by rewrite lookup_insert_eq.
  - rewrite lookup_alter_ne by done.
    destruct (subscriptions c !! channel) as [l|] eqn:Hl; [done|].
    by rewrite lookup_insert_ne.
Qed.

Lemma registered_subscribe channel cb arrivals c other :
  registered (subscribe channel cb arrivals c).1 other
  = if bool_decide (other = channel) then registered c channel ++ [cb]
    else registered c other.
Proof.
  rewrite subscribe_state. rewrite <- registered_register.
  unfold registered.
  by destruct (send_command_keeps json_loads invoke errno_unconnected
                 (lit "SUBSCRIBE " ++ channel) arrivals
                 (register channel cb c)) as [-> _].
Qed.


End Reader.

(** *** Facts about the codecs of the typed commands *)

Ltac lia_div := zify; Z.to_euclidean_division_equations; lia.

Lemma byte_of_to_N n : n < 256 -> Byte.to_N (byte_of n) = n.
Proof.
  intros H. unfold byte_of. destruct (Byte.of_N n) as [b|] eqn:Hb; simpl.
  - by apply Byte.to_of_N.
  - apply Byte.of_N_None_iff in Hb. lia.
Qed.

Lemma byte_of_of_byte b : byte_of (Byte.to_N b) = b.
Proof. unfold byte_of. by rewrite Byte.of_to_N. Qed.

Lemma to_N_small b : Byte.to_N b < 256.
Proof. pose proof (Byte.to_N_bounded b). lia. Qed.

Lemma b64_letter_value v : v < 64 -> b64_value (b64_letter v) = Some v.
Proof.
  intros H. unfold b64_letter, b64_value.
  destruct (N.ltb_spec v 26);
    [|destruct (N.ltb_spec v 52);
      [|destruct (N.ltb_spec v 62); [|destruct (N.eqb_spec v 62)]]].
  - rewrite byte_of_to_N by lia.
    destruct (N.leb_spec 65 (65 + v)); [|lia].
    destruct (N.leb_spec (65 + v) 90); [|lia]. simpl. f_equal. lia.
  - rewrite byte_of_to_N by lia.
    destruct (N.leb_spec 65 (71 + v)); [|lia].
    destruct (N.leb_spec (71 + v) 90); [lia|]. simpl.
    destruct (N.leb_spec 97 (71 + v)); [|lia].
    destruct (N.leb_spec (71 + v) 122); [|lia]. simpl. f_equal. lia.
  - rewrite byte_of_to_N by lia.
    destruct (N.leb_spec 65 (v - 4)); [lia|]. simpl.
    destruct (N.leb_spec 97 (v - 4)); [lia|]. simpl.
    destruct (N.leb_spec 48 (v - 4)); [|lia].
    destruct (N.leb_spec (v - 4) 57); [|lia]. simpl. f_equal. lia.
  - subst. reflexivity.
  - assert (v = 63) as -> by lia. reflexivity.
Qed.

(** A letter of base64 is a printable ASCII character. *)
Lemma b64_letter_plain v :
  43 <= Byte.to_N (b64_letter v) <= 122.
Proof.
  unfold b64_letter.
  destruct (N.ltb_spec v 26);
    [|destruct (N.ltb_spec v 52);
      [|destruct (N.ltb_spec v 62); [|destruct (N.eqb_spec v 62)]]];
    rewrite ?byte_of_to_N by lia; simpl; lia.
Qed.

Lemma pad_value : b64_value x3d = None.
Proof. reflexivity. Qed.

Lemma sextets_of_three a b c :
  a < 256 -> b < 256 -> c < 256 ->
  let n := a * 65536 + b * 256 + c in
  n / 262144 < 64 /\ (n / 4096) mod 64 < 64 /\ (n / 64) mod 64 < 64
  /\ n mod 64 < 64
  /\ n / 262144 * 262144 + (n / 4096) mod 64 * 4096
     + (n / 64) mod 64 * 64 + n mod 64 = n.
Proof. cbv zeta. intros. lia_div. Qed.

Lemma octets_of_three a b c :
  a < 256 -> b < 256 -> c < 256 ->
  let n := a * 65536 + b * 256 + c in
  n / 65536 = a /\ (n / 256) mod 256 = b /\ n mod 256 = c.
Proof. cbv zeta. intros. lia_div. Qed.

Lemma sextets_of_two a b :
  a < 256 -> b < 256 ->
  let n := a * 256 + b in
  n / 1024 < 64 /\ (n / 16) mod 64 < 64 /\ n mod 16 * 4 < 64
  /\ (n / 1024 * 1024 + (n / 16) mod 64 * 16 + n mod 16 * 4 / 4) / 256 = a
  /\ (n / 1024 * 1024 + (n / 16) mod 64 * 16 + n mod 16 * 4 / 4) mod 256
     = b.
Proof. cbv zeta. intros. lia_div. Qed.

Lemma sextets_of_one a :
  a < 256 ->
  a / 4 < 64 /\ a mod 4 * 16 < 64 /\ a / 4 * 4 + a mod 4 * 16 / 16 = a.
Proof. intros. lia_div. Qed.

Lemma b64_round_trip data : b64decode (b64encode data) = Some data.
Proof.
  induction data as [data IH] using (induction_ltof1 _ (@length byte)).
  unfold ltof in IH.
  destruct data as [|a [|b [|c rest]]].
  - reflexivity.
  - cbn [b64encode b64decode].
    destruct (sextets_of_one (Byte.to_N a) (to_N_small a))
      as (H0 & H1 & Heq).
    rewrite !b64_letter_value, pad_value by done.
    change (Byte.to_N x3d =? 61) with true. cbn [andb].
    by rewrite Heq, byte_of_of_byte.
  - cbn [b64encode b64decode].
    destruct (sextets_of_two (Byte.to_N a) (Byte.to_N b)
                (to_N_small a) (to_N_small b))
      as (H0 & H1 & H2 & Ha & Hb).
    rewrite !b64_letter_value, pad_value by done.
    change (Byte.to_N x3d =? 61) with true. cbn iota.
    by rewrite Ha, Hb, !byte_of_of_byte.
  - cbn [b64encode b64decode].
    destruct (sextets_of_three (Byte.to_N a) (Byte.to_N b) (Byte.to_N c)
                (to_N_small a) (to_N_small b) (to_N_small c))
      as (H0 & H1 & H2 & H3 & Heq).
    destruct (octets_of_three (Byte.to_N a) (Byte.to_N b) (Byte.to_N c)
                (to_N_small a) (to_N_small b) (to_N_small c))
      as (Ha & Hb & Hc).
    rewrite !b64_letter_value by done. cbn zeta. rewrite Heq.
    rewrite (IH rest) by (simpl; lia). simpl.
    by rewrite Ha, Hb, Hc, !byte_of_of_byte.
Qed.

Lemma b64_plain data :
  Forall (fun b => 43 <= Byte.to_N b <= 122) (b64encode data).
Proof.
  induction data as [data IH] using (induction_ltof1 _ (@length byte)).
  unfold ltof in IH.
  destruct data as [|a [|b [|c rest]]]; cbn [b64encode].
  - constructor.
  - repeat constructor; try apply b64_letter_plain; simpl; lia.
  - repeat constructor; try apply b64_letter_plain; simpl; lia.
  - repeat (constructor; [apply b64_letter_plain|]).
    apply IH. simpl. lia.
Qed.

Lemma b64_length data :
  length (b64encode data) = (4 * ((length data + 2) / 3))%nat.
Proof.
  induction data as [data IH] using (induction_ltof1 _ (@length byte)).
  unfold ltof in IH.
  destruct data as [|a [|b [|c rest]]]; cbn [b64encode length];
    try reflexivity.
  rewrite (IH rest) by (simpl; lia).
  replace (S (S (S (length rest))) + 2)%nat
    with (1 * 3 + (length rest + 2))%nat by lia.
  rewrite Nat.div_add_l by lia. lia.
Qed.

(** Octets below 128 decode to themselves, and characters below 128
    encode to themselves. *)
Lemma utf8_decode_ascii bs :
  Forall (fun b => Byte.to_N b < 128) bs ->
  utf8_decode bs = Some (map Byte.to_N bs).
Proof.
  induction 1 as [|b bs Hb _ IH]; [done|].
  cbn [utf8_decode map]. destruct (N.ltb_spec (Byte.to_N b) 128); [|lia].
  by rewrite IH.
Qed.

Lemma utf8_encode_ascii s :
  Forall (fun c => c < 128) s -> utf8_encode s = Some (map byte_of s).
Proof.
  induction 1 as [|c s Hc _ IH]; [done|].
  cbn [utf8_encode map]. rewrite IH. unfold utf8_encode_char.
  by destruct (N.ltb_spec c 128); [|lia].
Qed.

Lemma join_boundary sep xs a b ys :
  join sep (xs ++ (a ++ sep ++ b) :: ys) = join sep (xs ++ a :: b :: ys).
Proof.
  induction xs as [|x xs IH].
  - cbn [app join]. destruct ys; [done|]. by rewrite <- !app_assoc.
  - cbn [app join]. rewrite IH. by destruct xs.
Qed.

Lemma split_runs_word w t rest :
  forallb (fun c => negb (isspace c)) t = true ->
  split_runs w (t ++ rest) = split_runs (rev t ++ w) rest.
Proof.
  revert w. induction t as [|c t IH]; intros w; simpl; [done|].
  rewrite andb_true_iff, negb_true_iff. intros [-> Ht].
  rewrite IH by done. by rewrite <- app_assoc.
Qed.

Lemma token_rev t : token t = true -> exists c u, rev t = c :: u.
Proof.
  unfold token. rewrite andb_true_iff, negb_true_iff, bool_decide_eq_false.
  intros [Hne _]. destruct (rev t) as [|c u] eqn:Hr; [|eauto].
  apply (f_equal (@rev _)) in Hr. rewrite rev_involutive in Hr. done.
Qed.

(** [split()] undoes [' '.join] on tokens. *)
Lemma split_join ts :
  forallb token ts = true -> split_whitespace (join [SP] ts) = ts.
Proof.
  unfold split_whitespace.
  induction ts as [|t ts IH]; [done|].
  cbn [forallb join]. rewrite andb_true_iff. intros [Ht Hts].
  destruct (token_rev t Ht) as (c & u & Hrev).
  assert (Hback : rev (c :: u) = t) by (by rewrite <- Hrev, rev_involutive).
  unfold token in Ht. apply andb_true_iff in Ht as [_ Ht].
  destruct ts as [|t' ts'].
  - cbn [join]. rewrite <- (app_nil_r t) at 1.
    rewrite (split_runs_word [] t [] Ht), app_nil_r.
    cbn [split_runs]. by rewrite Hrev, Hback.
  - rewrite (split_runs_word [] t _ Ht), app_nil_r. cbn [app split_runs].
    change (isspace SP) with true. cbn iota. rewrite Hrev, Hback.
    by rewrite IH.
Qed.

Lemma split_runs_tokens s : forall w,
  forallb (fun c => negb (isspace c)) w = true ->
  Forall (fun t => token t = true) (split_runs w s).
Proof.
  assert (Htok : forall c w,
            forallb (fun c => negb (isspace c)) (c :: w) = true ->
            token (rev (c :: w)) = true).
  { intros c w Hw. unfold token. apply andb_true_iff. split.
    - apply negb_true_iff, bool_decide_eq_false. intros Hr.
      apply (f_equal (@rev _)) in Hr. rewrite rev_involutive in Hr. done.
    - rewrite forallb_forall in *. intros x Hx. apply Hw. by apply in_rev. }
  induction s as [|c s IH]; intros w Hw; cbn [split_runs].
  - destruct w as [|x w]; [constructor|]. constructor; [by apply Htok|done].
  - destruct (isspace c) eqn:Hc.
    + destruct w as [|x w]; [by apply IH|].
      constructor; [by apply Htok | by apply IH].
    + apply IH. simpl. by rewrite Hc.
Qed.

Lemma split_runs_leading l s :
  forallb isspace l = true -> split_runs [] (l ++ s) = split_runs [] s.
Proof.
  induction l as [|c l IH]; simpl; [done|].
  rewrite andb_true_iff. intros [-> Hl]. by apply IH.
Qed.

Lemma split_runs_blank r : forall w,
  forallb isspace r = true -> split_runs w r = split_runs w [].
Proof.
  induction r as [|c r IH]; intros w; simpl; [done|].
  rewrite andb_true_iff. intros [-> Hr].
  destruct w as [|x w]; [by rewrite IH | by rewrite (IH [] Hr)].
Qed.

Lemma split_runs_trailing s r : forall w,
  forallb isspace r = true -> split_runs w (s ++ r) = split_runs w s.
Proof.
  induction s as [|c s IH]; intros w Hr.
  - by apply split_runs_blank.
  - cbn [app split_runs]. destruct (isspace c).
    + destruct w as [|x w]; by rewrite IH.
    + by apply IH.
Qed.

(** Stripping a line does not change its tokens. *)
Lemma split_strip s : split_whitespace (strip s) = split_whitespace s.
Proof.
  destruct (strip_spec s) as (l & r & Heq & Hl & Hr & _).
  unfold split_whitespace. rewrite Heq at 2.
  by rewrite split_runs_leading, split_runs_trailing.
Qed.

Section Commands.

Variable json_loads : str -> option json.
Variable invoke : callback -> pyval -> option exn.
Variable errno_unconnected : errno.
Variable py_int : str -> option Z.
Variable json_dumps : json -> str.

Local Abbreviation _send_command :=
  (DushyRedisClient._send_command json_loads invoke errno_unconnected).
Local Abbreviation _read_responses :=
  (DushyRedisClient._read_responses json_loads invoke).
Local Abbreviation reader_step :=
  (DushyRedisClient.reader_step json_loads invoke).
Local Abbreviation process_line :=
  (DushyRedisClient.process_line json_loads invoke).
Local Abbreviation set := (DushyRedisClient.set json_loads invoke errno_unconnected).
Local Abbreviation get := (DushyRedisClient.get json_loads invoke errno_unconnected).
Local Abbreviation lpush :=
  (DushyRedisClient.lpush json_loads invoke errno_unconnected py_int).
Local Abbreviation rpush :=
  (DushyRedisClient.rpush json_loads invoke errno_unconnected py_int).
Local Abbreviation lpop := (DushyRedisClient.lpop json_loads invoke errno_unconnected).
Local Abbreviation rpop := (DushyRedisClient.rpop json_loads invoke errno_unconnected).
Local Abbreviation sadd :=
  (DushyRedisClient.sadd json_loads invoke errno_unconnected py_int).
Local Abbreviation smembers :=
  (DushyRedisClient.smembers json_loads invoke errno_unconnected).
Local Abbreviation hset := (DushyRedisClient.hset json_loads invoke errno_unconnected).
Local Abbreviation hget := (DushyRedisClient.hget json_loads invoke errno_unconnected).
Local Abbreviation subscribe :=
  (DushyRedisClient.subscribe json_loads invoke errno_unconnected).
Local Abbreviation publish :=
  (DushyRedisClient.publish json_loads invoke errno_unconnected).
Local Abbreviation publish_json :=
  (DushyRedisClient.publish_json json_loads invoke errno_unconnected
     json_dumps).
Local Abbreviation publish_int :=
  (DushyRedisClient.publish_int json_loads invoke errno_unconnected).
Local Abbreviation publish_binary :=
  (DushyRedisClient.publish_binary json_loads invoke errno_unconnected).
Local Abbreviation publish_array :=
  (DushyRedisClient.publish_array json_loads invoke errno_unconnected
     json_dumps).
Local Abbreviation step :=
  (Usage.step json_loads invoke errno_unconnected py_int json_dumps).
Local Abbreviation run :=
  (Usage.run json_loads invoke errno_unconnected py_int json_dumps).
Local Abbreviation prim := (Usage.prim json_loads invoke).

(** One answered command in a ready connection. *)
Lemma command_round line rd c :
  ready c -> round_ok rd = true -> cmd rd = line ->
  exists c',
    _send_command line (map Recv (chunks rd)) c
    = (c', Ok (strip (reply rd)))
    /\ ready c'
    /\ sent c' = sent c ++ [octets (line ++ [NL])]
    /\ subscriptions c' = subscriptions c.
Proof.
  intros Hc Hok <-.
  destruct (round_effect json_loads invoke errno_unconnected rd c Hc Hok)
    as (c' & data & Hsend & Hc' & Hdata & Hsent & Hsub).
  exists c'. unfold octets. rewrite Hdata. by split_and!.
Qed.


Lemma joined_spaced values : joined values = spaced (map format values).
Proof.
  unfold joined. induction values as [|v values IH]; [done|].
  cbn [map join]. destruct values as [|w values].
  - cbn. by rewrite app_nil_r.
  - cbn [map] in *. rewrite IH. done.
Qed.

(** X10.  [lpush], [rpush] and [sadd] send the name of the command, the
    key and the texts of the values, each text preceded by one space,
    and quote nothing; the text of a string value is the string.  With
    no value at all the line ends with the space that follows the key.
    A value that holds a space is therefore sent, and so handled, as
    two values: whatever the state of the client, the call with the
    value [a b] does what the call with the two values [a] and [b]
    does. *)
Theorem list_values_are_joined_without_quoting
        key values xs a b ys arrivals c :
  lpush key values arrivals c
  = (response <- _send_command
                   (lit "LPUSH " ++ key ++ [32] ++ spaced (map format values))
                   arrivals ;;
     to_int py_int response) c
  /\ rpush key values arrivals c
     = (response <- _send_command
                      (lit "RPUSH " ++ key ++ [32]
                       ++ spaced (map format values))
                      arrivals ;;
        to_int py_int response) c
  /\ sadd key values arrivals c
     = (response <- _send_command
                      (lit "SADD " ++ key ++ [32]
                       ++ spaced (map format values))
                      arrivals ;;
        to_int py_int response) c
  /\ (forall texts, map format (map OStr texts) = texts)
  /\ lpush key (xs ++ OStr (a ++ [32] ++ b) :: ys) arrivals c
     = lpush key (xs ++ OStr a :: OStr b :: ys) arrivals c
  /\ rpush key (xs ++ OStr (a ++ [32] ++ b) :: ys) arrivals c
     = rpush key (xs ++ OStr a :: OStr b :: ys) arrivals c
  /\ sadd key (xs ++ OStr (a ++ [32] ++ b) :: ys) arrivals c
     = sadd key (xs ++ OStr a :: OStr b :: ys) arrivals c.
Proof.
  assert (Hj : joined (xs ++ OStr (a ++ [32] ++ b) :: ys)
               = joined (xs ++ OStr a :: OStr b :: ys)).
  { unfold joined. rewrite !map_app. cbn [map format].
    apply (join_boundary [SP]). }
  unfold DushyRedisClient.lpush, DushyRedisClient.rpush,
    DushyRedisClient.sadd.
  rewrite Hj, <- joined_spaced.
  split_and!; try done.
  intros texts. induction texts as [|t texts IH]; [done|].
  cbn [map format]. by rewrite IH.
Qed.



(** One answered command in a ready connection, with what was sent. *)
Lemma command_round_sent line rd c :
  ready c -> round_ok rd = true -> cmd rd = line ->
  exists c' data,
    _send_command line (map Recv (chunks rd)) c
    = (c', Ok (strip (reply rd)))
    /\ ready c'
    /\ utf8_encode (line ++ [NL]) = Some data
    /\ sent c' = sent c ++ [data].
Proof.
  intros Hc Hok <-.
  destruct (round_effect json_loads invoke errno_unconnected rd c Hc Hok)
    as (c' & data & Hsend & Hc' & Hdata & Hsent & _).
  by exists c', data.
Qed.


Lemma plain_not_space ch : 43 <= ch <= 122 -> isspace ch = false.
Proof.
  intros H. unfold isspace.
  rewrite !orb_false_iff, !andb_false_iff, !N.leb_gt, !N.eqb_neq. lia.
Qed.

(** X14.  [publish_binary] never fails on its data: whatever the
    octets, a newline or a space among them, the call is that of a
    command whose last word is the base64 text of the data.  That text
    is made of ASCII characters none of which is white space, so it is
    one word of the command line and is sent as the very octets that
    [b64encode] gave; it has four characters for every three octets of
    data, the last group padded; and it stands for the data and nothing
    else: decoding it gives the data back. *)
Theorem binary_payload_is_one_plain_word channel data arrivals c :
  let payload := map Byte.to_N (b64encode data) in
  publish_binary channel data arrivals c
  = (response <- _send_command
                   (lit "PUBLISH_BIN " ++ channel ++ [SP] ++ payload)
                   arrivals ;;
     ret (bool_decide (response = lit "OK"))) c
  /\ Forall (fun ch => isspace ch = false /\ ch <> NL /\ ch < 128) payload
  /\ utf8_encode payload = Some (b64encode data)
  /\ length payload = (4 * ((length data + 2) / 3))%nat
  /\ b64decode (b64encode data) = Some data.
Proof.
  intros payload.
  assert (Hplain : Forall (fun ch => 43 <= ch <= 122) payload).
  { subst payload. apply Forall_fmap. apply b64_plain. }
  split_and!.
  - unfold DushyRedisClient.publish_binary, mbind, decode.
    rewrite utf8_decode_ascii; [done|].
    eapply Forall_impl; [apply b64_plain|]. simpl. lia.
  - eapply Forall_impl; [exact Hplain|]. intros ch Hch. cbv beta in Hch.
    split_and!.
    + by apply plain_not_space.
    + unfold NL. lia.
    + lia.
  - rewrite utf8_encode_ascii.
    + subst payload. f_equal. rewrite map_map.
      rewrite <- (map_id (b64encode data)) at 2.
      apply map_ext. intros b. apply byte_of_of_byte.
    + eapply Forall_impl; [exact Hplain|]. simpl. lia.
  - subst payload. rewrite length_map. apply b64_length.
  - apply b64_round_trip.
Qed.

(** *** What every use preserves *)

Lemma mbind_state {A B} (m : M A) (k : A -> M B) c :
  (forall x c', (k x c').1 = c') -> (mbind m k c).1 = (m c).1.
Proof.
  intros Hk. unfold mbind. destruct (m c) as [c' [x| |]]; simpl; auto.
Qed.

Lemma to_int_state s c : (to_int py_int s c).1 = c.
Proof. unfold to_int. by destruct (py_int s). Qed.

Lemma publish_binary_state channel data arrivals c :
  exists line,
    (publish_binary channel data arrivals c).1
    = (_send_command line arrivals c).1.
Proof.
  unfold DushyRedisClient.publish_binary, decode.
  rewrite utf8_decode_ascii
    by (eapply Forall_impl; [apply b64_plain|]; simpl; lia).
  eexists. unfold mbind at 1, ret at 1. by rewrite mbind_state.
Qed.

Lemma reader_prims (P : client -> Prop) :
  (forall c c', prim c c' -> P c -> P c') ->
  forall rs c, P c -> P (_read_responses rs c).
Proof.
  intros HP rs. induction rs as [|r rs IH]; intros c Hc; [done|].
  cbn [DushyRedisClient._read_responses fold_left].
  apply IH. eapply HP; [apply prim_reader | exact Hc].
Qed.

Lemma send_command_prims (P : client -> Prop) :
  (forall c c', prim c c' -> P c -> P c') ->
  forall line arrivals c, P c -> P (_send_command line arrivals c).1.
Proof.
  intros HP line arrivals c Hc. open_send.
  destruct (utf8_encode (line ++ [NL])) as [data|] eqn:Hd; [|done].
  unfold ret. destruct (sock c) eqn:Hs; try done.
  assert (H1 : P (set_sent (sent c ++ [data]) c)).
  { eapply HP; [eapply prim_send; eauto | exact Hc]. }
  apply (reader_prims P HP arrivals) in H1.
  unfold queue_get.
  destruct (response_queue (_read_responses arrivals _)) as [|x q] eqn:Hq;
    [done|].
  eapply HP; [eapply prim_get; eauto | exact H1].
Qed.

(** Every use of the client is a sequence of elementary changes. *)
Lemma step_preserves (P : client -> Prop) :
  (forall c c', prim c c' -> P c -> P c') ->
  forall c o, P c -> P (step c o).
Proof.
  intros HP c o Hc.
  pose proof (send_command_prims P HP) as Hsend.
  destruct o; cbn [Usage.step].
  - unfold _connect. destruct (sock c) eqn:Hs; try done.
    destruct reachable; [|done].
    eapply HP; [by apply prim_connect | exact Hc].
  - eapply HP; [apply prim_close | exact Hc].
  - by apply reader_prims.
  - unfold DushyRedisClient.set. rewrite mbind_state by done. by apply Hsend.
  - unfold DushyRedisClient.get. rewrite mbind_state by done. by apply Hsend.
  - unfold DushyRedisClient.lpush.
    rewrite mbind_state by (intros; apply to_int_state). by apply Hsend.
  - unfold DushyRedisClient.rpush.
    rewrite mbind_state by (intros; apply to_int_state). by apply Hsend.
  - unfold DushyRedisClient.lpop. rewrite mbind_state by done. by apply Hsend.
  - unfold DushyRedisClient.rpop. rewrite mbind_state by done. by apply Hsend.
  - unfold DushyRedisClient.sadd.
    rewrite mbind_state by (intros; apply to_int_state). by apply Hsend.
  - unfold DushyRedisClient.smembers.
    rewrite mbind_state by done. by apply Hsend.
  - unfold DushyRedisClient.hset. rewrite mbind_state by done. by apply Hsend.
  - unfold DushyRedisClient.hget. rewrite mbind_state by done. by apply Hsend.
  - rewrite (subscribe_state json_loads invoke errno_unconnected).
    apply Hsend. eapply HP; [apply prim_register | exact Hc].
  - unfold DushyRedisClient.publish.
    rewrite mbind_state by done. by apply Hsend.
  - unfold DushyRedisClient.publish_json.
    rewrite mbind_state by done. by apply Hsend.
  - unfold DushyRedisClient.publish_int.
    rewrite mbind_state by done. by apply Hsend.
  - unfold DushyRedisClient.publish_binary, decode.
    destruct (utf8_decode (b64encode data)) as [encoded|]; [|done].
    unfold mbind at 1, ret at 1.
    rewrite mbind_state by done. by apply Hsend.
  - unfold DushyRedisClient.publish_array.
    rewrite mbind_state by done. by apply Hsend.
Qed.

Lemma run_preserves (P : client -> Prop) :
  (forall c c', prim c c' -> P c -> P c') ->
  forall ops c, P c -> P (run ops c).
Proof.
  intros HP ops. induction ops as [|o ops IH]; intros c Hc; [done|].
  cbn [Usage.run fold_left]. apply IH. by apply step_preserves.
Qed.

Lemma utf8_encode_newline s : forall data,
  utf8_encode (s ++ [NL]) = Some data -> terminated data.
Proof.
  unfold terminated. induction s as [|c s IH]; intros data.
  - vm_compute. by intros [= <-].
  - cbn [app utf8_encode]. destruct (utf8_encode_char c) as [b|]; [|done].
    destruct (utf8_encode (s ++ [NL])) as [bs|]; [|done]. intros [= <-].
    rewrite last_app. by rewrite (IH bs eq_refl).
Qed.

Lemma prim_consistent c c' : prim c c' -> consistent c -> consistent c'.
Proof.
  intros Hp (Hrun & Hfresh & Hnot & Hbuf & Hsent & Hcalls).
  destruct Hp as [c Hs | c | c r | c line data Hs Hd | c x q Hq
                  | c channel cb].
  - destruct (proj1 Hfresh Hs) as [Ht _].
    destruct (Hnot Ht) as (H1 & H2 & H3 & H4).
    unfold consistent, calls_registered. simpl. split_and!.
    + done.
    + split; [discriminate | intros [? _]; discriminate].
    + discriminate.
    + intros b [= <-]. apply not_elem_of_nil.
    + rewrite H1. constructor.
    + intros cb v Hin. rewrite H3 in Hin. by apply elem_of_nil in Hin.
  - unfold consistent. simpl. split_and!; try done.
    split; [discriminate | by intros [_ ?]].
  - destruct (reader_step_grows json_loads invoke c r)
      as (Hs & Hse & Hsu & Hr
          & (kq & kc & ks & Hq & Hc & Ho & Hk) & Hb & Hn & Hsame).
    unfold consistent. rewrite Hs, Hse, Hr. split_and!; try done.
    + by rewrite Hn.
    + intros Ht. apply Hn in Ht. rewrite (Hsame Ht). by apply Hnot.
    + intros cb v. rewrite Hc, elem_of_app. intros [Hin|Hin].
      * destruct (Hcalls cb v Hin) as [ch Hch]. exists ch.
        unfold registered. by rewrite Hsu.
      * rewrite Forall_forall in Hk. destruct (Hk _ Hin) as [ch Hch].
        exists ch. unfold registered. by rewrite Hsu.
  - assert (Hstarted : _read_thread c <> NotStarted).
    { intros Ht.
      assert (sock c = Fresh) by (apply Hfresh; split; [done | congruence]).
      congruence. }
    unfold consistent. simpl. split_and!; try done.
    apply Forall_app. split; [done|]. constructor; [|constructor].
    by apply (utf8_encode_newline line).
  - unfold consistent. simpl. split_and!; try done.
    intros Ht. destruct (Hnot Ht) as (_ & Hempty & _). congruence.
  - unfold consistent. change (sock (register channel cb c)) with (sock c).
    change (running (register channel cb c)) with (running c).
    change (_read_thread (register channel cb c)) with (_read_thread c).
    change (sent (register channel cb c)) with (sent c).
    change (response_queue (register channel cb c))
      with (response_queue c).
    change (stdout (register channel cb c)) with (stdout c).
    split_and!; try done.
    intros cb' v Hin. change (calls (register channel cb c)) with (calls c)
      in Hin.
    destruct (Hcalls cb' v Hin) as [ch Hch]. exists ch.
    rewrite registered_register. case_bool_decide as Heq; [|done].
    subst ch. apply elem_of_app. by left.
Qed.

(** X15.  However a client is used from [__init__] on (connecting,
    commands that succeed, fail or stay suspended, subscriptions, the
    reader thread running in between, closing, in any order):
    [running] is true exactly when the socket has been connected and
    not closed; the reader thread has been started exactly when the
    connection succeeded, so never twice; before that nothing was sent, queued, printed or
    given to a callback; between two turns of the reader its buffer
    holds no newline, every complete line having been handled in the
    turn that completed it; every transmission ends with the newline
    octet; and every callback that was invoked is registered. *)
Theorem every_use_keeps_the_client_consistent ops :
  consistent (run ops __init__).
Proof.
  apply (run_preserves consistent prim_consistent).
  unfold consistent, calls_registered. simpl.
  split_and!; try done.
  intros cb v Hin. by apply elem_of_nil in Hin.
Qed.

Lemma prim_extends c c' : prim c c' -> continues c c'.
Proof.
  intros Hp.
  destruct Hp as [c Hs | c | c r | c line data Hs Hd | c x q Hq
                  | c channel cb]; unfold continues.
  - by split_and!.
  - by split_and!.
  - destruct (reader_step_grows json_loads invoke c r)
      as (_ & Hse & Hsu & _ & (kq & kc & ks & _ & Hc & Ho & _) & _).
    rewrite Hse, Hc, Ho. split_and!; try done.
    + by apply prefix_app_r.
    + by apply prefix_app_r.
    + intros ch. unfold registered. by rewrite Hsu.
  - simpl. split_and!; try done. by apply prefix_app_r.
  - by split_and!.
  - change (sent (register channel cb c)) with (sent c).
    change (calls (register channel cb c)) with (calls c).
    change (stdout (register channel cb c)) with (stdout c).
    split_and!; try done.
    intros ch. rewrite registered_register.
    case_bool_decide as Heq; [|done]. subst ch. by apply prefix_app_r.
Qed.

Lemma continues_trans c1 c2 c3 :
  continues c1 c2 -> continues c2 c3 -> continues c1 c3.
Proof.
  intros (H1 & H2 & H3 & H4) (K1 & K2 & K3 & K4).
  unfold continues. split_and!; try (by etrans).
  intros ch. etrans; [apply H4 | apply K4].
Qed.

(** X16.  The client has no way to unsubscribe and rewrites nothing:
    whatever is done with a client, in whatever order, the callbacks of
    every channel stay registered, in the order of their registration
    and before those registered later, so that a callback subscribed
    once is called for every later message of its channel that reaches
    the dispatch; and what was sent, printed and given to callbacks
    stays as it was, later events coming after. *)
Theorem registrations_are_never_removed ops c :
  continues c (run ops c).
Proof.
  apply (run_preserves (continues c)).
  - intros c1 c2 Hp Hc. eapply continues_trans; [exact Hc|].
    by apply prim_extends.
  - by unfold continues.
Qed.

Lemma send_command_unconnected line arrivals c :
  sock c <> Connected -> (_send_command line arrivals c).1 = c.
Proof.
  intros Hs. open_send.
  destruct (utf8_encode (line ++ [NL])) as [data|]; [|done].
  unfold ret. by destruct (sock c).
Qed.

(** On a closed client every use but a turn of the reader and a
    registration leaves the record as it is. *)
Lemma step_closed c o :
  sock c = Closed -> running c = false ->
  match o with
  | OpArrive rs => step c o = _read_responses rs c
  | OpSubscribe channel cb _ => step c o = register channel cb c
  | _ => step c o = c
  end.
Proof.
  intros Hs Hr.
  assert (Hsend : forall line a c0,
            sock c0 = Closed -> (_send_command line a c0).1 = c0).
  { intros line a c0 H0. apply send_command_unconnected. congruence. }
  destruct o; cbn [Usage.step]; try done.
  - unfold _connect. by rewrite Hs.
  - destruct c. simpl in *. by subst.
  - unfold DushyRedisClient.set. rewrite mbind_state by done. by apply Hsend.
  - unfold DushyRedisClient.get. rewrite mbind_state by done. by apply Hsend.
  - unfold DushyRedisClient.lpush.
    rewrite mbind_state by (intros; apply to_int_state). by apply Hsend.
  - unfold DushyRedisClient.rpush.
    rewrite mbind_state by (intros; apply to_int_state). by apply Hsend.
  - unfold DushyRedisClient.lpop. rewrite mbind_state by done. by apply Hsend.
  - unfold DushyRedisClient.rpop. rewrite mbind_state by done. by apply Hsend.
  - unfold DushyRedisClient.sadd.
    rewrite mbind_state by (intros; apply to_int_state). by apply Hsend.
  - unfold DushyRedisClient.smembers.
    rewrite mbind_state by done. by apply Hsend.
  - unfold DushyRedisClient.hset. rewrite mbind_state by done. by apply Hsend.
  - unfold DushyRedisClient.hget. rewrite mbind_state by done. by apply Hsend.
  - rewrite (subscribe_state json_loads invoke errno_unconnected).
    by apply Hsend.
  - unfold DushyRedisClient.publish.
    rewrite mbind_state by done. by apply Hsend.
  - unfold DushyRedisClient.publish_json.
    rewrite mbind_state by done. by apply Hsend.
  - unfold DushyRedisClient.publish_int.
    rewrite mbind_state by done. by apply Hsend.
  - destruct (publish_binary_state channel data arrivals c) as [line ->].
    by apply Hsend.
  - unfold DushyRedisClient.publish_array.
    rewrite mbind_state by done. by apply Hsend.
Qed.

Lemma run_closed ops : forall c,
  sock c = Closed -> running c = false ->
  sock (run ops c) = Closed /\ running (run ops c) = false
  /\ sent (run ops c) = sent c.
Proof.
  induction ops as [|o ops IH]; intros c Hs Hr; [done|].
  cbn [Usage.run fold_left].
  change (fold_left step ops ?x) with (run ops x).
  pose proof (step_closed c o Hs Hr) as Ho.
  assert (H1 : sock (step c o) = Closed /\ running (step c o) = false
               /\ sent (step c o) = sent c).
  { destruct o; rewrite Ho; try done.
    destruct (reader_grows json_loads invoke rs c)
      as (-> & -> & _ & -> & _). done. }
  destruct H1 as (H1 & H2 & H3).
  destruct (IH (step c o) H1 H2) as (? & ? & ?).
  split_and!; congruence.
Qed.

(** What a use of the client that is not a turn of the reader leaves
    alone on a closed client. *)
Lemma run_closed_quiet ops : forall c,
  sock c = Closed -> running c = false ->
  Forall (fun o => forall r rs, o <> OpArrive (r :: rs)) ops ->
  response_queue (run ops c) = response_queue c
  /\ calls (run ops c) = calls c /\ stdout (run ops c) = stdout c
  /\ _read_thread (run ops c) = _read_thread c.
Proof.
  induction ops as [|o ops IH]; intros c Hs Hr Hops; [done|].
  cbn [Usage.run fold_left].
  change (fold_left step ops ?x) with (run ops x).
  apply Forall_cons in Hops as [Ho Hops].
  pose proof (step_closed c o Hs Hr) as Hstep.
  destruct (run_closed [o] c Hs Hr) as (H1 & H2 & _).
  cbn [Usage.run fold_left] in H1, H2.
  destruct (IH (step c o) H1 H2 Hops) as (-> & -> & -> & ->).
  destruct o; rewrite Hstep; try done.
  destruct rs as [|r rs]; [done|]. by destruct (Ho r rs).
Qed.

(** Once the reader of a closed client has left its loop, nothing is
    enqueued, called or printed any more. *)
Lemma run_closed_idle ops : forall c,
  sock c = Closed -> running c = false ->
  (forall b, _read_thread c <> Reading b) ->
  response_queue (run ops c) = response_queue c
  /\ calls (run ops c) = calls c /\ stdout (run ops c) = stdout c
  /\ (forall b, _read_thread (run ops c) <> Reading b).
Proof.
  induction ops as [|o ops IH]; intros c Hs Hr Ht; [done|].
  cbn [Usage.run fold_left].
  change (fold_left step ops ?x) with (run ops x).
  pose proof (step_closed c o Hs Hr) as Hstep.
  destruct (run_closed [o] c Hs Hr) as (H1 & H2 & _).
  cbn [Usage.run fold_left] in H1, H2.
  assert (H3 : response_queue (step c o) = response_queue c
               /\ calls (step c o) = calls c
               /\ stdout (step c o) = stdout c
               /\ _read_thread (step c o) = _read_thread c).
  { destruct o; rewrite Hstep; try done.
    by rewrite (reader_stopped json_loads invoke rs c Ht). }
  destruct H3 as (H3 & H4 & H5 & H6).
  destruct (IH (step c o) H1 H2) as (-> & -> & -> & ?).
  - intros b. rewrite H6. apply Ht.
  - by split_and!.
Qed.

(** X17.  [close] is final for the caller, and the reader takes at most
    one more turn.  Whatever is done with the client after [close], the
    socket stays closed, [running] stays false and no octet is sent.
    Commands, subscriptions and attempts to connect change neither the
    queue nor the record of the calls and of the printed lines.  The
    reader, when it was inside [recv], handles the first chunk that
    arrives after [close], whose responses are enqueued and whose
    notifications reach the callbacks, and then leaves its loop: from
    that turn on nothing is enqueued, called or printed any more,
    whatever arrives and whatever is done. *)
Theorem close_is_final c :
  (forall ops,
     sock (run ops (close c).1) = Closed
     /\ running (run ops (close c).1) = false
     /\ sent (run ops (close c).1) = sent c)
  /\ (forall ops,
        Forall (fun o => forall r rs, o <> OpArrive (r :: rs)) ops ->
        response_queue (run ops (close c).1) = response_queue c
        /\ calls (run ops (close c).1) = calls c
        /\ stdout (run ops (close c).1) = stdout c)
  /\ (forall ops1 r rs ops2,
        let c1 := run ops1 (close c).1 in
        let c2 := run (OpArrive (r :: rs) :: ops2) c1 in
        response_queue c2 = response_queue (reader_step c1 r)
        /\ calls c2 = calls (reader_step c1 r)
        /\ stdout c2 = stdout (reader_step c1 r)
        /\ (forall b, _read_thread c2 <> Reading b)).
Proof.
  assert (Hs : sock (close c).1 = Closed) by done.
  assert (Hr : running (close c).1 = false) by done.
  split_and!.
  - intros ops. by destruct (run_closed ops (close c).1 Hs Hr) as (? & ? & ?).
  - intros ops Hops.
    destruct (run_closed_quiet ops (close c).1 Hs Hr Hops)
      as (-> & -> & -> & _). done.
  - intros ops1 r rs ops2 c1 c2.
    destruct (run_closed ops1 (close c).1 Hs Hr) as (Hs1 & Hr1 & _).
    fold c1 in Hs1, Hr1.
    destruct (reader_last_turn json_loads invoke r rs c1 Hr1)
      as [Hlast Hleft].
    assert (Hc2 : c2 = run ops2 (reader_step c1 r)).
    { subst c2. cbn [Usage.run fold_left Usage.step]. by rewrite Hlast. }
    destruct (reader_step_grows json_loads invoke c1 r)
      as (Hs2 & _ & _ & Hr2 & _).
    rewrite Hc2. apply run_closed_idle; [congruence | congruence | done].
Qed.

(** *** A newline inside an argument *)

Lemma utf8_encode_app a b :
  utf8_encode (a ++ b)
  = match utf8_encode a, utf8_encode b with
    | Some x, Some y => Some (x ++ y)
    | _, _ => None
    end.
Proof.
  induction a as [|c a IH]; cbn [app utf8_encode].
  - by destruct (utf8_encode b).
  - rewrite IH.
    destruct (utf8_encode_char c), (utf8_encode a), (utf8_encode b);
      try done.
    by rewrite app_assoc.
Qed.

Lemma enqueued_response r :
  r <> [] -> is_push r = false -> enqueued r = [strip r].
Proof.
  intros Hne Hp. unfold enqueued. rewrite Hp.
  by rewrite bool_decide_eq_false_2.
Qed.


(** *** The shape of a response *)

Lemma strip_idem s : strip (strip s) = strip s.
Proof.
  destruct (strip_spec s) as (_ & _ & _ & _ & _ & Hhd & Hlast).
  destruct (strip_spec (strip s)) as (l & r & Heq & Hl & Hr & _).
  destruct l as [|c l].
  - destruct r as [|x r _] using rev_ind.
    + by rewrite app_nil_r in Heq.
    + rewrite forallb_app in Hr. cbn in Hr.
      apply andb_true_iff in Hr as [_ Hx].
      rewrite app_nil_l, app_assoc in Heq.
      rewrite (Hlast _ _ Heq) in Hx. done.
  - cbn in Hl. apply andb_true_iff in Hl as [Hc _].
    cbn in Heq. rewrite (Hhd _ _ Heq) in Hc. done.
Qed.

Lemma strip_no_newline s : NL ∉ s -> NL ∉ strip s.
Proof.
  destruct (strip_spec s) as (l & r & Heq & _). intros Hs Hin. apply Hs.
  rewrite Heq, !elem_of_app. auto.
Qed.

Lemma blank_line_enqueued line :
  line <> [] -> forallb isspace line = true -> enqueued line = [[]].
Proof.
  intros Hne Hb. unfold enqueued. rewrite bool_decide_eq_false_2 by done.
  assert (Hp : is_push line = false).
  { destruct line as [|c t]; [done|]. cbn in Hb.
    apply andb_true_iff in Hb as [Hc _].
    change (is_push (c :: t))
      with ((77 =? c) && startswith t (lit "essage")).
    by destruct (N.eqb_spec 77 c) as [<-|]. }
  rewrite Hp. f_equal.
  destruct (strip_spec line) as (l & r & Heq & _ & _ & Hhd & _).
  destruct (strip line) as [|c t]; [done|].
  rewrite forallb_forall in Hb. specialize (Hhd c t eq_refl).
  rewrite (Hb c) in Hhd; [done|].
  apply list_elem_of_In. rewrite Heq, !elem_of_app. right. left. by left.
Qed.

Lemma enqueued_stripped ls :
  Forall (fun l => NL ∉ l) ls ->
  Forall (fun x => strip x = x /\ NL ∉ x) (flat_map enqueued ls).
Proof.
  induction 1 as [|l ls Hl _ IH]; [constructor|].
  cbn [flat_map]. apply Forall_app. split; [|exact IH].
  unfold enqueued. case_bool_decide; [constructor|].
  destruct (is_push l); [constructor|].
  constructor; [|constructor].
  split; [apply strip_idem | by apply strip_no_newline].
Qed.

Lemma reader_step_queue c r :
  exists ls,
    Forall (fun l => NL ∉ l) ls
    /\ response_queue (reader_step c r)
       = response_queue c ++ flat_map enqueued ls.
Proof.
  assert (Hnil : exists ls,
            Forall (fun l => NL ∉ l) ls
            /\ response_queue c = response_queue c ++ flat_map enqueued ls).
  { exists []. by rewrite app_nil_r. }
  unfold DushyRedisClient.reader_step.
  destruct (_read_thread c) as [|b|] eqn:Ht; [done| |done].
  unfold DushyRedisClient.reader_turn, try_except.
  destruct r as [octets|e]; simpl; [|done].
  destruct (utf8_decode octets) as [[|x d]|] eqn:Hd; simpl; [done| |done].
  unfold mbind. rewrite (drain_frame json_loads invoke). simpl.
  destruct (process_lines_effect json_loads invoke
              (frame (b ++ x :: d)).1 c) as (_ & _ & _ & _ & _ & _ & Hq).
  destruct (frame_decompose (b ++ x :: d)) as (_ & Hls & _).
  exists (frame (b ++ x :: d)).1.
  by destruct (running (process_lines json_loads invoke
                          (frame (b ++ x :: d)).1 c).1).
Qed.

Lemma prim_queue_stripped c c' :
  prim c c' ->
  Forall (fun x => strip x = x /\ NL ∉ x) (response_queue c) ->
  Forall (fun x => strip x = x /\ NL ∉ x) (response_queue c').
Proof.
  intros Hp Hc.
  destruct Hp as [c Hs | c | c r | c line data Hs Hd | c x q Hq
                  | c channel cb]; try done.
  - destruct (reader_step_queue c r) as (ls & Hls & ->).
    apply Forall_app. split; [done | by apply enqueued_stripped].
  - simpl. rewrite Hq in Hc. by inversion Hc.
Qed.

(** X19.  Every response that a command takes from the queue, however
    the client was used before, is one line of the stream without the
    white space at its ends: it holds no newline and stripping it
    again changes nothing.  It may be empty: a line of blanks is not
    taken for an empty line, and is delivered stripped.  So is every
    value that [get] returns. *)
Theorem every_response_is_a_stripped_line ops command key arrivals x :
  let c := run ops __init__ in
  ((_send_command command arrivals c).2 = Ok x -> strip x = x /\ (NL ∉ x))
  /\ ((get key arrivals c).2 = Ok (Some x) -> strip x = x /\ (NL ∉ x))
  /\ (forall line,
        line <> [] -> forallb isspace line = true -> enqueued line = [[]]).
Proof.
  intros c.
  assert (Hsend : forall line, (_send_command line arrivals c).2 = Ok x ->
                               strip x = x /\ NL ∉ x).
  { intros line.
    pose proof (run_preserves _ prim_queue_stripped ops __init__
                  (Forall_nil_2 _)) as Hc.
    fold c in Hc. open_send.
    destruct (utf8_encode (line ++ [NL])) as [data|] eqn:Hd; [|done].
    unfold ret. destruct (sock c) eqn:Hs; try done.
    assert (H1 : Forall (fun x => strip x = x /\ NL ∉ x)
                   (response_queue (set_sent (sent c ++ [data]) c)))
      by done.
    apply (reader_prims _ prim_queue_stripped arrivals) in H1.
    unfold queue_get.
    destruct (response_queue (_read_responses arrivals _)) as [|y q];
      [done|].
    simpl. intros [= ->]. by inversion H1. }
  split_and!; [apply Hsend | | apply blank_line_enqueued].
  unfold DushyRedisClient.get, mbind.
  specialize (Hsend (lit "GET " ++ key)).
  destruct (_send_command (lit "GET " ++ key) arrivals c)
    as [c' [y| |]]; try done.
  unfold ret. cbn [snd] in *. case_match; [done|].
  intros [= ->]. by apply Hsend.
Qed.

End Commands.

(** *** The properties on the sample data *)

Lemma news_has_no_space : SP ∉ lit "news".
Proof. apply (bool_decide_unpack _). vm_compute. exact I. Defined.

Lemma connected_is_ready : ready connected.
Proof. by repeat split. Defined.

Lemma bad_notification :
  Scenario.notification more_loads (lit "news") bad_envelope (JInt 2)
                        (JArr [JInt 66; JInt 300]).
Proof.
  split; [exact news_has_no_space|].
  eexists. split_and!; reflexivity.
Defined.

(** The response [OK] in two chunks and in one. *)
Lemma chunks_cut_witness :
  decode_chunks [octets (lit "O"); octets (lit "K" ++ [NL])]
  = Some [lit "O"; lit "K" ++ [NL]]
  /\ decode_chunks [octets (lit "OK" ++ [NL])] = Some [lit "OK" ++ [NL]]
  /\ DushyRedisClient._read_responses sample_loads sample_invoke
       (map Recv [octets (lit "O"); octets (lit "K" ++ [NL])]) connected
     = DushyRedisClient._read_responses sample_loads sample_invoke
         (map Recv [octets (lit "OK" ++ [NL])]) connected.
Proof.
  split_and!; [reflexivity | reflexivity |].
  apply (chunks_cut_between_characters_frame_alike
           sample_loads sample_invoke
           [octets (lit "O"); octets (lit "K" ++ [NL])]
           [octets (lit "OK" ++ [NL])]
           [lit "O"; lit "K" ++ [NL]] [lit "OK" ++ [NL]] connected []);
    try reflexivity.
  apply not_elem_of_nil.
Defined.

(** The reader holds [O] and receives [K], a newline and [x]. *)
Lemma reader_turn_witness :
  utf8_decode (octets (lit "K" ++ [NL] ++ lit "x"))
  = Some (lit "K" ++ [NL] ++ lit "x")
  /\ exists ls b',
       lit "O" ++ lit "K" ++ [NL] ++ lit "x" = unlines ls ++ b'
       /\ Forall (fun l => NL ∉ l) ls /\ (NL ∉ b')
       /\ DushyRedisClient.reader_step sample_loads sample_invoke mid_line
            (Recv (octets (lit "K" ++ [NL] ++ lit "x")))
          = set_read_thread (Reading b')
              (Scenario.process_lines sample_loads sample_invoke ls
                 mid_line).1
       /\ response_queue
            (DushyRedisClient.reader_step sample_loads sample_invoke
               mid_line (Recv (octets (lit "K" ++ [NL] ++ lit "x"))))
          = response_queue mid_line ++ flat_map enqueued ls.
Proof.
  split; [reflexivity|].
  apply (reader_turn_conserves_the_text sample_loads sample_invoke
           mid_line (lit "O") (octets (lit "K" ++ [NL] ++ lit "x"))
           (lit "K" ++ [NL] ++ lit "x"));
    [reflexivity | reflexivity | reflexivity | discriminate].
Defined.

(** The stream ends, and a response arrives all the same. *)
Lemma reader_leaves_witness :
  DushyRedisClient._read_responses sample_loads sample_invoke
    [Recv []; Recv (octets (lit "OK" ++ [NL]))] connected
  = set_read_thread Finished connected.
Proof.
  exact (proj1 (reader_leaves_its_loop_for_good sample_loads sample_invoke
                  connected [] [Recv (octets (lit "OK" ++ [NL]))]
                  eq_refl eq_refl)).
Defined.

(** [old] is in the queue when [GET k] is answered with [new]. *)
Lemma stale_response_witness :
  (DushyRedisClient._send_command sample_loads sample_invoke EPIPE
     (lit "GET k") [Recv (octets (lit "new" ++ [NL]))] stale).2
  = Ok (lit "old")
  /\ response_queue
       (DushyRedisClient._send_command sample_loads sample_invoke EPIPE
          (lit "GET k") [Recv (octets (lit "new" ++ [NL]))] stale).1
     = [lit "new"].
Proof.
  split; [|reflexivity].
  exact (proj1 (stale_response_is_returned_first sample_loads sample_invoke
                  EPIPE stale (lit "old") [] (lit "GET k")
                  (octets (lit "GET k" ++ [NL]))
                  [Recv (octets (lit "new" ++ [NL]))]
                  eq_refl eq_refl eq_refl)).
Defined.

(** The reader has left its loop when [GET k] is answered. *)
Lemma reader_stopped_witness :
  DushyRedisClient._send_command sample_loads sample_invoke EPIPE
    (lit "GET k") [Recv (octets (lit "v" ++ [NL]))] stopped
  = (set_sent (sent stopped ++ [octets (lit "GET k" ++ [NL])]) stopped,
     Block).
Proof.
  apply (command_after_reader_stopped_is_never_answered
           sample_loads sample_invoke EPIPE stopped (lit "GET k")
           (octets (lit "GET k" ++ [NL]))
           [Recv (octets (lit "v" ++ [NL]))]); reflexivity.
Defined.

(** Nobody subscribed to [news]: a bad document prints an error, a
    good one does nothing. *)
Lemma envelope_witness :
  DushyRedisClient.process_line sample_loads sample_invoke
    (notification_line (lit "news") (lit "oops")) connected
  = (set_stdout (stdout connected
                 ++ [ErrorProcessingMessage JSONDecodeError]) connected,
     Ok tt)
  /\ DushyRedisClient.process_line sample_loads sample_invoke
       (notification_line (lit "news") hi_envelope) connected
     = (connected, Ok tt).
Proof.
  split.
  - exact (proj1 (envelope_is_decoded_before_the_channel_is_looked_up
                    sample_loads sample_invoke (lit "news") (lit "oops")
                    connected news_has_no_space) eq_refl).
  - exact (proj1 (proj2
                    (envelope_is_decoded_before_the_channel_is_looked_up
                       sample_loads sample_invoke (lit "news") hi_envelope
                       connected news_has_no_space))
             _ eq_refl eq_refl).
Defined.

(** The element 300 of a binary message. *)
Lemma malformed_binary_witness :
  exists e,
    (e = TypeError \/ e = ValueError)
    /\ DushyRedisClient.process_line more_loads quiet_invoke
         (notification_line (lit "news") bad_envelope)
         (with_callbacks [1; 2]%nat)
       = (set_stdout (stdout (with_callbacks [1; 2]%nat)
                      ++ [ErrorProcessingMessage e])
            (with_callbacks [1; 2]%nat), Ok tt).
Proof.
  apply (malformed_binary_message_reaches_no_callback
           more_loads quiet_invoke (lit "news") bad_envelope (JInt 2)
           [JInt 66; JInt 300] 1%nat [2%nat] (with_callbacks [1; 2]%nat));
    [exact bad_notification | reflexivity | reflexivity | reflexivity].
Defined.






(** After [close] a command and a subscription change nothing; the
    chunk that arrives first is handled, what follows is not. *)
Lemma close_is_final_witness :
  response_queue
    (Usage.run sample_loads sample_invoke EPIPE sample_int sample_dumps
       [OpGet (lit "k") []; OpSubscribe (lit "news") 7%nat []]
       (close connected).1)
  = response_queue connected
  /\ response_queue
       (Usage.run sample_loads sample_invoke EPIPE sample_int sample_dumps
          [OpArrive [Recv (octets (lit "OK" ++ [NL]));
                     Recv (octets (lit "X" ++ [NL]))];
           OpArrive [Recv (octets (lit "Y" ++ [NL]))]]
          (Usage.run sample_loads sample_invoke EPIPE sample_int
             sample_dumps [OpGet (lit "k") []] (close connected).1))
     = [lit "OK"].
Proof.
  destruct (close_is_final sample_loads sample_invoke EPIPE sample_int
              sample_dumps connected) as (_ & Hquiet & Hlast).
  split.
  - apply (Hquiet [OpGet (lit "k") []; OpSubscribe (lit "news") 7%nat []]).
    repeat constructor; intros r rs; discriminate.
  - etrans.
    + apply (Hlast [OpGet (lit "k") []]
               (Recv (octets (lit "OK" ++ [NL])))
               [Recv (octets (lit "X" ++ [NL]))]
               [OpArrive [Recv (octets (lit "Y" ++ [NL]))]]).
    + reflexivity.
Defined.


(** A connected client sends [GET k] and is answered with [ 1 ]. *)
Lemma stripped_line_witness :
  (DushyRedisClient._send_command sample_loads sample_invoke EPIPE
     (lit "GET k") [Recv (octets (lit " 1 " ++ [NL]))]
     (Usage.run sample_loads sample_invoke EPIPE sample_int sample_dumps
        [OpConnect true] __init__)).2
  = Ok (lit "1")
  /\ strip (lit "1") = lit "1" /\ (NL ∉ lit "1").
Proof.
  split; [reflexivity|].
  exact (proj1 (every_response_is_a_stripped_line
                  sample_loads sample_invoke EPIPE sample_int sample_dumps
                  [OpConnect true] (lit "GET k") (lit "k")
                  [Recv (octets (lit " 1 " ++ [NL]))] (lit "1"))
           eq_refl).
Defined.

End Extras.
